(** * whistle-docs-server: the documentation cache ([WhistleDocsCache])

    A shallow embedding of the class [WhistleDocsCache] of the server's main
    module, and the properties of its operations [initialize], [getSection],
    [search] and [refreshCache].

    Conventions of the embedding.
    - A JavaScript string is a [string]: a sequence of 8-bit code units
      (U+0000..U+00FF).  On these code units [toLowerCase] and [trim] are the
      character-wise functions defined below.
    - A JavaScript number that holds an index, a length or a time is a [Z];
      [indexOf] answers [-1] when there is no occurrence.
    - A file is named by its path below the cache directory, and
      [path.join(CACHE_DIR, name)] is the entry [name] of that directory when
      [name] holds no path separator.  The statements that depend on which
      file a record is are stated for such names ([plainName]) and for a
      store that holds nothing but entries of the cache directory
      ([flatStore]); file names are compared as they are written.
    - [Map<string, DocSection>] is an association list in insertion order:
      [set] on a key already present replaces the value in place.
    - The network ([curl] followed by [cheerio.load]), the [URL] constructor
      and the file-system permissions are the fields of an environment [Env];
      an operation that can throw answers an [Outcome]. *)

From Stdlib Require Import ZArith List String Ascii Bool Lia DecimalString.
Import ListNotations.

Open Scope string_scope.
Open Scope Z_scope.

(** ** JavaScript strings *)

Module JS.

Definition length (s : string) : Z := Z.of_nat (String.length s).

Fixpoint take (n : nat) (s : string) : string :=
  match n, s with
  | S n', String c s' => String c (take n' s')
  | _, _ => EmptyString
  end.

Fixpoint drop (n : nat) (s : string) : string :=
  match n, s with
  | S n', String _ s' => drop n' s'
  | _, _ => s
  end.

(** [ToIntegerOrInfinity] followed by the clamp to [0, len] of
    [String.prototype.substring]. *)
Definition clamp (len x : Z) : Z := Z.min (Z.max x 0) len.

(** [s.substring(a, b)]: both ends are clamped, then swapped when out of
    order. *)
Definition substring (s : string) (a b : Z) : string :=
  let a' := clamp (length s) a in
  let b' := clamp (length s) b in
  let lo := Z.min a' b' in
  let hi := Z.max a' b' in
  take (Z.to_nat (hi - lo)) (drop (Z.to_nat lo) s).

(** [s.startsWith(p)] *)
Fixpoint startsWith (s p : string) {struct p} : bool :=
  match p, s with
  | EmptyString, _ => true
  | String c p', String d s' => Ascii.eqb c d && startsWith s' p'
  | String _ _, EmptyString => false
  end.

(** [s.endsWith(p)] *)
Definition endsWith (s p : string) : bool :=
  (String.length p <=? String.length s)%nat
  && String.eqb (drop (String.length s - String.length p) s) p.

(** [StringIndexOf(s, q, i)], counting positions from [i]. *)
Fixpoint indexOfFrom (s q : string) (i : Z) : Z :=
  if startsWith s q then i
  else match s with
       | EmptyString => -1
       | String _ s' => indexOfFrom s' q (i + 1)
       end.

(** [s.indexOf(q)] *)
Definition indexOf (s q : string) : Z := indexOfFrom s q 0.

(** [s.includes(q)] *)
Definition includes (s q : string) : bool := negb (indexOf s q =? -1).

Definition toLowerChar (c : ascii) : ascii :=
  let n := nat_of_ascii c in
  if ((65 <=? n) && (n <=? 90)
      || (192 <=? n) && (n <=? 222) && negb (n =? 215))%nat
  then ascii_of_nat (n + 32) else c.

(** [s.toLowerCase()] *)
Fixpoint toLowerCase (s : string) : string :=
  match s with
  | EmptyString => EmptyString
  | String c s' => String (toLowerChar c) (toLowerCase s')
  end.

Definition isWhiteSpace (c : ascii) : bool :=
  let n := nat_of_ascii c in
  ((9 <=? n) && (n <=? 13) || (n =? 32) || (n =? 160))%nat.

Fixpoint trimStart (s : string) : string :=
  match s with
  | String c s' => if isWhiteSpace c then trimStart s' else s
  | EmptyString => EmptyString
  end.

Fixpoint trimEnd (s : string) : string :=
  match s with
  | EmptyString => EmptyString
  | String c s' =>
      match trimEnd s' with
      | EmptyString => if isWhiteSpace c then EmptyString
                       else String c EmptyString
      | t => String c t
      end
  end.

(** [s.trim()] *)
Definition trim (s : string) : string := trimEnd (trimStart s).

(** A string is falsy exactly when it is empty. *)
Definition truthy (s : string) : bool :=
  match s with EmptyString => false | _ => true end.

(** [s.replace(/^p/, "")] for a literal [p] *)
Definition stripPrefix (p s : string) : string :=
  if startsWith s p then drop (String.length p) s else s.

(** [s.replace(/p$/, "")] for a literal [p] *)
Definition stripSuffix (p s : string) : string :=
  if endsWith s p then take (String.length s - String.length p) s else s.

End JS.

(** ** Data model *)

(** [type DocSection] *)
Record DocSection : Type := mkDocSection {
  id : string;
  title : string;
  content : string;
  url : string
}.

(** [type SearchResult]; its field [url] is [resultUrl] here. *)
Record SearchResult : Type := mkSearchResult {
  sectionId : string;
  sectionTitle : string;
  matchedContent : string;
  resultUrl : string
}.

(** [section.content = c] *)
Definition withContent (section : DocSection) (c : string) : DocSection :=
  mkDocSection (id section) (title section) c (url section).

(** *** Insertion-ordered maps with string keys *)

Section Assoc.
Context {V : Type}.

(** [m.get(k)] *)
Fixpoint assoc_get (k : string) (m : list (string * V)) : option V :=
  match m with
  | [] => None
  | (k', v) :: m' => if String.eqb k k' then Some v else assoc_get k m'
  end.

(** [m.set(k, v)]: a key already present keeps its position. *)
Fixpoint assoc_set (k : string) (v : V) (m : list (string * V))
  : list (string * V) :=
  match m with
  | [] => [(k, v)]
  | (k', v') :: m' =>
      if String.eqb k k' then (k, v) :: m' else (k', v') :: assoc_set k v m'
  end.

(** [m.delete(k)] *)
Definition assoc_remove (k : string) (m : list (string * V))
  : list (string * V) :=
  filter (fun p => negb (String.eqb k (fst p))) m.

(** [m.values()] *)
Definition assoc_values (m : list (string * V)) : list V := map snd m.

(** [m.keys()] *)
Definition assoc_keys (m : list (string * V)) : list string := map fst m.
End Assoc.

(** *** The outside world *)

(** An element matched by a selector: its [href] attribute ([None] when the
    attribute is missing) and its text. *)
Record Element : Type := mkElement {
  href : option string;
  text : string
}.

(** A page loaded by [cheerio.load]: what [$(selector)] matches, in document
    order. *)
Definition Document : Type := string -> list Element.

(** [$(selector).text()]: the texts of the matched elements, concatenated. *)
Fixpoint collectionText (els : list Element) : string :=
  match els with
  | [] => ""
  | el :: rest => text el ++ collectionText rest
  end.

(** The content of a file of the cache directory: the JSON of a section, or
    anything [JSON.parse] rejects. *)
Inductive FileData : Type :=
| Json (section : DocSection)
| Garbage.

(** A call of [fetchUrl], tagged by its call site. *)
Inductive Request : Type :=
| IndexRequest
| SectionRequest (u : string).

(** What the operations cannot decide themselves.
    - [curl n u]: the page [fetchUrl(u)] resolves with, after [cheerio.load],
      when [n] requests were made before; [None] when [curl] fails.
    - [resolveURL h]: [new URL(h, BASE_URL).toString()]; [None] when the
      constructor throws.
    - [writable f], [removable f]: whether [writeFileSync] and [unlinkSync]
      succeed on the file [f] of the cache directory.
    - [listable]: whether [readdirSync] succeeds on the cache directory. *)
Record Env : Type := mkEnv {
  curl : nat -> string -> option Document;
  resolveURL : string -> option string;
  writable : string -> bool;
  listable : bool;
  removable : string -> bool
}.

(** The fields of a [WhistleDocsCache], the files of [CACHE_DIR] by name in
    directory order, and the requests made so far. *)
Record World : Type := mkWorld {
  sections : list (string * DocSection);
  lastFetchTime : Z;
  isInitialized : bool;
  files : list (string * FileData);
  requests : list Request
}.

Definition setSections (m : list (string * DocSection)) (w : World) : World :=
  mkWorld m (lastFetchTime w) (isInitialized w) (files w) (requests w).

Definition setFiles (fs : list (string * FileData)) (w : World) : World :=
  mkWorld (sections w) (lastFetchTime w) (isInitialized w) fs (requests w).

Definition setInitialized (t : Z) (b : bool) (w : World) : World :=
  mkWorld (sections w) t b (files w) (requests w).

Definition addRequest (r : Request) (w : World) : World :=
  mkWorld (sections w) (lastFetchTime w) (isInitialized w) (files w)
          (requests w ++ [r]).

(** The result of an [async] method: it returns a value or throws, and the
    world goes on from where it stopped. *)
Inductive Outcome (A : Type) : Type :=
| Returned (w : World) (a : A)
| Thrown (w : World) (message : string).
Arguments Returned {A} w a.
Arguments Thrown {A} w message.

(** [new WhistleDocsCache()] over the files found in the cache directory. *)
Definition newCache (fs : list (string * FileData)) : World :=
  mkWorld [] 0 false fs [].

(** ** The cache *)

Definition CACHE_TTL : Z := 3600000.
Definition BASE_URL : string := "https://wproxy.org/whistle/".

(** [path.join(this.CACHE_DIR, `${id}.json`)], as a name inside [CACHE_DIR]. *)
Definition cachePath (i : string) : string := i ++ ".json".

(** [fetchUrl(u)] called from [site]. *)
Definition fetchUrl (env : Env) (site : Request) (u : string) (w : World)
  : World * option Document :=
  (addRequest site w, curl env (List.length (requests w)) u).

(** [getCachedContent(id)] *)
Definition getCachedContent (i : string) (w : World)
  : World * option DocSection :=
  match assoc_get (cachePath i) (files w) with
  | Some (Json section) =>
      (setSections (assoc_set (id section) section (sections w)) w,
       Some section)
  | Some Garbage => (w, None)
  | None => (w, None)
  end.

(** [saveCachedContent(section)] *)
Definition saveCachedContent (env : Env) (section : DocSection) (w : World)
  : World :=
  let cachePath := cachePath (id section) in
  if writable env cachePath
  then setFiles (assoc_set cachePath (Json section) (files w)) w
  else w.

Definition selectors : list string :=
  [".sidebar-nav ul li a"; ".sidebar ul li a"; "nav ul li a"; "#sidebar a";
   ".menu a"].

Definition contentSelectors : list string :=
  ["#main"; ".content"; "article"; ".markdown-body"; "body"].

(** The test [href && !href.startsWith("http") && !href.includes("#")]. *)
Definition validLink (h : option string) : bool :=
  match h with
  | None => false
  | Some h => JS.truthy h && negb (JS.startsWith h "http")
              && negb (JS.includes h "#")
  end.

(** [href.replace(/^\/whistle\//, "").replace(/\.html$/, "") || "index"] *)
Definition sectionId_of (h : string) : string :=
  let i := JS.stripSuffix ".html" (JS.stripPrefix "/whistle/" h) in
  if JS.truthy i then i else "index".

(** [title || id] *)
Definition orElse (a b : string) : string := if JS.truthy a then a else b.

(** The callback of [links.each], over the matched links in order; [None]
    when [new URL] throws. *)
Fixpoint eachLink (env : Env) (links : list Element) (acc : list DocSection)
  : option (list DocSection) :=
  match links with
  | [] => Some acc
  | el :: rest =>
      let title := JS.trim (text el) in
      match href el with
      | Some h =>
          if validLink (Some h) then
            let i := sectionId_of h in
            match resolveURL env h with
            | Some u =>
                eachLink env rest (acc ++ [mkDocSection i (orElse title i) "" u])
            | None => None
            end
          else eachLink env rest acc
      | None => eachLink env rest acc
      end
  end.

(** The loop over [selectors]: the links of the first selector that matches
    anything, [None] when none does ([foundLinks] stays false). *)
Fixpoint firstLinks (doc : Document) (sels : list string)
  : option (list Element) :=
  match sels with
  | [] => None
  | selector :: rest =>
      match doc selector with
      | [] => firstLinks doc rest
      | links => Some links
      end
  end.

Definition defaultSection : DocSection :=
  mkDocSection "index" "Whistle 文档首页" "" BASE_URL.

(** The section stubs of the index page; [None] when [new URL] throws. *)
Definition indexSections (env : Env) (doc : Document)
  : option (list DocSection) :=
  match firstLinks doc selectors with
  | Some links =>
      match eachLink env links [] with
      | Some [] => Some [defaultSection]
      | Some stubs => Some stubs
      | None => None
      end
  | None => Some [defaultSection]
  end.

(** The loop over [contentSelectors]. *)
Fixpoint firstContent (doc : Document) (sels : list string) : string :=
  match sels with
  | [] => ""
  | selector :: rest =>
      match doc selector with
      | [] => firstContent doc rest
      | els => JS.trim (collectionText els)
      end
  end.

Definition pageContent (doc : Document) : string :=
  let c := firstContent doc contentSelectors in
  if JS.truthy c then c else JS.trim (collectionText (doc "body")).

(** The body of the loop over the stubs, with its [try]/[catch]. *)
Definition loadSection (env : Env) (w : World) (section : DocSection)
  : World :=
  let (w1, cachedSection) := getCachedContent (id section) w in
  match cachedSection with
  | Some cached =>
      let section := withContent section (content cached) in
      setSections (assoc_set (id section) section (sections w1)) w1
  | None =>
      let (w2, page) :=
        fetchUrl env (SectionRequest (url section)) (url section) w1 in
      match page with
      | Some doc =>
          let section := withContent section (pageContent doc) in
          let w3 := saveCachedContent env section w2 in
          setSections (assoc_set (id section) section (sections w3)) w3
      | None => w2
      end
  end.

Definition initError : string := "Failed to initialize Whistle docs cache".

(** [initialize()]; [t0] is [Date.now()] at the staleness test, [t1] is
    [Date.now()] when the crawl is over. *)
Definition initialize (env : Env) (t0 t1 : Z) (w : World) : Outcome unit :=
  if isInitialized w && (t0 - lastFetchTime w <? CACHE_TTL) then Returned w tt
  else
    let (w1, page) := fetchUrl env IndexRequest BASE_URL w in
    match page with
    | None => Thrown w1 initError
    | Some doc =>
        match indexSections env doc with
        | None => Thrown w1 initError
        | Some stubs =>
            Returned (setInitialized t1 true (fold_left (loadSection env) stubs w1)) tt
        end
    end.

(** [getAllSections()] *)
Definition getAllSections (env : Env) (t0 t1 : Z) (w : World)
  : Outcome (list DocSection) :=
  match initialize env t0 t1 w with
  | Returned w' _ => Returned w' (assoc_values (sections w'))
  | Thrown w' e => Thrown w' e
  end.

(** [getSection(id)] *)
Definition getSection (env : Env) (t0 t1 : Z) (i : string) (w : World)
  : Outcome (option DocSection) :=
  match initialize env t0 t1 w with
  | Returned w' _ => Returned w' (assoc_get i (sections w'))
  | Thrown w' e => Thrown w' e
  end.

(** The excerpt of a section that matches, [matchedContent]. *)
Definition excerpt (query : string) (section : DocSection) : string :=
  let lowerQuery := JS.toLowerCase query in
  let contentLower := JS.toLowerCase (content section) in
  let index := JS.indexOf contentLower lowerQuery in
  if negb (index =? -1) then
    let start := Z.max 0 (index - 100) in
    let end_ := Z.min (JS.length (content section))
                      (index + JS.length query + 100) in
    let matchedContent := JS.substring (content section) start end_ in
    let matchedContent :=
      if 0 <? start then "..." ++ matchedContent else matchedContent in
    if end_ <? JS.length (content section)
    then matchedContent ++ "..." else matchedContent
  else JS.substring (content section) 0 200 ++ "...".

(** The test of the loop of [search]. *)
Definition matches (query : string) (section : DocSection) : bool :=
  let lowerQuery := JS.toLowerCase query in
  JS.includes (JS.toLowerCase (title section)) lowerQuery
  || JS.includes (JS.toLowerCase (content section)) lowerQuery.

(** The loop of [search] over [this.sections.values()]. *)
Fixpoint scan (query : string) (secs : list DocSection) : list SearchResult :=
  match secs with
  | [] => []
  | section :: rest =>
      if matches query section
      then mkSearchResult (id section) (title section)
                          (excerpt query section) (url section)
           :: scan query rest
      else scan query rest
  end.

(** [search(query)] *)
Definition search (env : Env) (t0 t1 : Z) (query : string) (w : World)
  : Outcome (list SearchResult) :=
  match initialize env t0 t1 w with
  | Returned w' _ => Returned w' (scan query (assoc_values (sections w')))
  | Thrown w' e => Thrown w' e
  end.

(** The loop of [refreshCache] over the listing [names]; an [unlinkSync]
    that throws leaves the loop for the [catch] around it. *)
Fixpoint unlinkAll (env : Env) (names : list string)
         (fs : list (string * FileData)) : list (string * FileData) :=
  match names with
  | [] => fs
  | file :: rest =>
      if JS.endsWith file ".json" then
        if removable env file then unlinkAll env rest (assoc_remove file fs)
        else fs
      else unlinkAll env rest fs
  end.

(** The [try] block of [refreshCache]. *)
Definition clearFiles (env : Env) (w : World) : World :=
  if listable env
  then setFiles (unlinkAll env (assoc_keys (files w)) (files w)) w
  else w.

(** [refreshCache()] *)
Definition refreshCache (env : Env) (t0 t1 : Z) (w : World) : Outcome unit :=
  let w1 := setSections [] (setInitialized (lastFetchTime w) false w) in
  initialize env t0 t1 (clearFiles env w1).

(** ** Vocabulary of the statements *)

(** [q] occurs in [s], case-insensitively. *)
Definition occursIn (q s : string) : Prop :=
  exists pre post, JS.toLowerCase s = pre ++ JS.toLowerCase q ++ post.

(** The search result of a section, around a given excerpt. *)
Definition resultOf (section : DocSection) (m : string) : SearchResult :=
  mkSearchResult (id section) (title section) m (url section).

(** The ellipsis marker, when [b] holds. *)
Definition ellipsisIf (b : bool) : string := if b then "..." else "".

(** The world an operation stopped in. *)
Definition worldOf {A : Type} (o : Outcome A) : World :=
  match o with
  | Returned w _ => w
  | Thrown w _ => w
  end.

(** What an operation returned, [None] when it threw. *)
Definition valueOf {A : Type} (o : Outcome A) : option A :=
  match o with
  | Returned _ a => Some a
  | Thrown _ _ => None
  end.

(** ** A sample site

    The index page of the scenario: two links in the side bar. *)

Definition indexPage : Document :=
  fun selector =>
    if String.eqb selector ".sidebar-nav ul li a"
    then [mkElement (Some "/whistle/rules.html") "Rules";
          mkElement (Some "/whistle/plugins.html") "Plugins"]
    else [].

Definition rulesPage : Document :=
  fun selector =>
    if String.eqb selector "#main"
    then [mkElement None "Map requests to operations"]
    else [].

Definition pluginsPage : Document :=
  fun selector =>
    if String.eqb selector "#main"
    then [mkElement None " Whistle supports custom plugins for extension "]
    else [].

(** [new URL(h, BASE_URL).toString()] on the hrefs of the examples: an
    absolute path, a relative file name, and ["//"], which has an empty host
    and makes the constructor throw. *)
Definition resolveSample (h : string) : option string :=
  if String.eqb h "//" then None
  else if JS.startsWith h "/" then Some ("https://wproxy.org" ++ h)
  else Some (BASE_URL ++ h).

Definition sampleSite (n : nat) (u : string) : option Document :=
  if String.eqb u BASE_URL then Some indexPage
  else if String.eqb u "https://wproxy.org/whistle/rules.html"
       then Some rulesPage
  else if String.eqb u "https://wproxy.org/whistle/plugins.html"
       then Some pluginsPage
  else None.

Definition sampleEnv : Env :=
  mkEnv sampleSite resolveSample (fun _ => true) true (fun _ => true).

Definition rulesSection : DocSection :=
  mkDocSection "rules" "Rules" "Map requests to operations"
               "https://wproxy.org/whistle/rules.html".

Definition pluginsSection : DocSection :=
  mkDocSection "plugins" "Plugins"
               "Whistle supports custom plugins for extension"
               "https://wproxy.org/whistle/plugins.html".

(** The world after the first crawl of the sample site, at time 1000. *)
Definition sampleWorld : World :=
  worldOf (initialize sampleEnv 1000 1000 (newCache [])).

(** ** Vocabulary of the statements about the crawl *)

Definition isIndexRequest (r : Request) : bool :=
  match r with
  | IndexRequest => true
  | SectionRequest _ => false
  end.

(** How many times the index page was requested so far. *)
Definition indexFetches (w : World) : nat :=
  List.length (filter isIndexRequest (requests w)).

(** The test of [initialize] fails: the cache is cold or stale at [t0]. *)
Definition mustCrawl (t0 : Z) (w : World) : Prop :=
  isInitialized w && (t0 - lastFetchTime w <? CACHE_TTL) = false.

(** The page the index request of a crawl started in [w] resolves with. *)
Definition indexResponse (env : Env) (w : World) : option Document :=
  curl env (List.length (requests w)) BASE_URL.

(** The stub [links.each] pushes for a link it keeps. *)
Definition isStubOf (env : Env) (el : Element) (stub : DocSection) : Prop :=
  exists h u,
    href el = Some h /\ resolveURL env h = Some u
    /\ stub = mkDocSection (sectionId_of h)
                           (orElse (JS.trim (text el)) (sectionId_of h)) "" u.

(** The links [links.each] keeps. *)
Definition keptLinks (links : list Element) : list Element :=
  filter (fun el => validLink (href el)) links.

(** Every link the index parser keeps can be resolved against the base URL. *)
Definition resolvable (env : Env) (links : list Element) : Prop :=
  forall el h, In el links -> href el = Some h -> validLink (Some h) = true ->
               resolveURL env h <> None.



(** An index page whose only link is the relative link [https.html]. *)
Definition httpsIndexPage : Document :=
  fun selector =>
    if String.eqb selector ".sidebar-nav ul li a"
    then [mkElement (Some "https.html") "HTTPS"]
    else [].

(** An index page with a link whose target has an empty host. *)
Definition brokenIndexPage : Document :=
  fun selector =>
    if String.eqb selector ".sidebar-nav ul li a"
    then [mkElement (Some "/whistle/rules.html") "Rules";
          mkElement (Some "//") "Home"]
    else [].

(** The sample site, with [brokenIndexPage] as its index page. *)
Definition brokenEnv : Env :=
  mkEnv (fun n u => if String.eqb u BASE_URL then Some brokenIndexPage
                    else sampleSite n u)
        resolveSample (fun _ => true) true (fun _ => true).

(** ** Vocabulary of the statements about the files *)

(** The test of the loop of [refreshCache]. *)
Definition isRecord (file : string) : bool := JS.endsWith file ".json".


(** Every record of the directory holds the section its name says, as the
    records [saveCachedContent] writes do. *)
Definition consistent (fs : list (string * FileData)) : Prop :=
  forall i section,
    assoc_get (cachePath i) fs = Some (Json section) -> id section = i.

(** A cache miss: no record, or one that [JSON.parse] rejects. *)
Definition cacheMiss (i : string) (w : World) : Prop :=
  forall c, assoc_get (cachePath i) (files w) <> Some (Json c).




Definition outdatedRules : DocSection :=
  mkDocSection "rules" "Rules" "Outdated text"
               "https://wproxy.org/whistle/rules.html".

Definition outdatedPlugins : DocSection :=
  mkDocSection "plugins" "Plugins" "Outdated plugins text"
               "https://wproxy.org/whistle/plugins.html".

Definition outdatedWebui : DocSection :=
  mkDocSection "webui" "Web UI" "Outdated webui text"
               "https://wproxy.org/whistle/webui.html".

(** A cache with three records in its directory. *)
Definition staleWorld : World :=
  mkWorld [("rules", outdatedRules); ("plugins", outdatedPlugins)] 1000 true
          [("rules.json", Json outdatedRules);
           ("plugins.json", Json outdatedPlugins);
           ("webui.json", Json outdatedWebui)]
          [IndexRequest].

(** The sample site when [plugins.json] cannot be deleted. *)
Definition lockedEnv : Env :=
  mkEnv sampleSite resolveSample (fun _ => true) true
        (fun file => negb (String.eqb file "plugins.json")).





(** ** The tools of the server

    The handler of [CallToolRequestSchema].  A reply is the text of the
    content it returns, or the [McpError] it throws. *)

Inductive ErrorCode : Type :=
| InvalidParams
| InternalError
| MethodNotFound.

Inductive Reply : Type :=
| Content (text : string)
| McpError (code : ErrorCode) (message : string).

(** The double quote and the line feed. *)
Definition dq : string := String "034"%char "".
Definition nl : string := String "010"%char "".

(** The decimal text of a count, as a template literal prints it. *)
Definition numberText (n : nat) : string :=
  NilEmpty.string_of_uint (Nat.to_uint n).

(** [String(request.params.arguments?.key)].  The list gives, for each
    argument that is present, the text [String] makes of it (the argument
    itself when it is a string); a missing argument, or no arguments at all,
    gives ["undefined"]. *)
Definition argument (args : option (list (string * string))) (key : string)
  : string :=
  match args with
  | Some a =>
      match assoc_get key a with
      | Some v => v
      | None => "undefined"
      end
  | None => "undefined"
  end.

(** [l.join(sep)] *)
Fixpoint join (sep : string) (l : list string) : string :=
  match l with
  | [] => ""
  | [x] => x
  | x :: rest => x ++ sep ++ join sep rest
  end.

(** The callback of [results.map], from position [index] on. *)
Fixpoint formatResults (index : nat) (results : list SearchResult)
  : list string :=
  match results with
  | [] => []
  | result :: rest =>
      ("## " ++ numberText (index + 1) ++ ". " ++ sectionTitle result
       ++ nl ++ nl ++ matchedContent result ++ nl ++ nl
       ++ "[查看完整内容](" ++ resultUrl result ++ ")" ++ nl ++ nl ++ "---"
       ++ nl)
      :: formatResults (S index) rest
  end.

Definition toolFailed : Reply := McpError InternalError "Failed to execute tool".

Definition noResultText (query : string) : string :=
  "没有找到与 " ++ dq ++ query ++ dq ++ " 相关的内容。".

Definition resultsText (query : string) (results : list SearchResult)
  : string :=
  "# Whistle 文档搜索结果: " ++ dq ++ query ++ dq ++ nl ++ nl ++ "找到 "
  ++ numberText (List.length results) ++ " 个相关结果:" ++ nl ++ nl
  ++ join nl (formatResults 0 results).

Definition noFeatureText (feature : string) : string :=
  "没有找到关于 " ++ dq ++ feature ++ dq
  ++ " 功能的说明。请尝试使用 search_whistle_docs 工具搜索更多信息。".

Definition sectionText (section : DocSection) : string :=
  "# " ++ title section ++ nl ++ nl ++ content section ++ nl ++ nl
  ++ "[查看原文](" ++ url section ++ ")".

Definition refreshedText : string :=
  "Whistle 文档缓存已刷新，现在包含最新的文档内容。".

(** [case "search_whistle_docs"]; [c] holds the two readings of the clock of
    the call of [initialize]. *)
Definition searchTool (env : Env) (c : Z * Z)
           (args : option (list (string * string))) (w : World)
  : World * Reply :=
  let query := argument args "query" in
  if negb (JS.truthy query)
  then (w, McpError InvalidParams "Search query is required")
  else
    match search env (fst c) (snd c) query w with
    | Thrown w' _ => (w', toolFailed)
    | Returned w' [] => (w', Content (noResultText query))
    | Returned w' results => (w', Content (resultsText query results))
    end.

(** [case "get_whistle_feature"]; [c1], [c2] and [c3] hold the readings of
    the clock of its three calls of [initialize]. *)
Definition featureTool (env : Env) (c1 c2 c3 : Z * Z)
           (args : option (list (string * string))) (w : World)
  : World * Reply :=
  let feature := JS.toLowerCase (argument args "feature") in
  if negb (JS.truthy feature)
  then (w, McpError InvalidParams "Feature name is required")
  else
    match getSection env (fst c1) (snd c1) feature w with
    | Thrown w1 _ => (w1, toolFailed)
    | Returned w1 (Some section) => (w1, Content (sectionText section))
    | Returned w1 None =>
        match search env (fst c2) (snd c2) feature w1 with
        | Thrown w2 _ => (w2, toolFailed)
        | Returned w2 [] => (w2, Content (noFeatureText feature))
        | Returned w2 (first :: _) =>
            match getSection env (fst c3) (snd c3) (sectionId first) w2 with
            | Thrown w3 _ => (w3, toolFailed)
            | Returned w3 (Some section) =>
                (w3, Content (sectionText section))
            | Returned w3 None => (w3, Content (noFeatureText feature))
            end
        end
    end.

(** [case "refresh_whistle_docs"] *)
Definition refreshTool (env : Env) (c : Z * Z) (w : World) : World * Reply :=
  match refreshCache env (fst c) (snd c) w with
  | Returned w' _ => (w', Content refreshedText)
  | Thrown w' _ => (w', toolFailed)
  end.

(** The handler of [CallToolRequestSchema]. *)
Definition callTool (env : Env) (c1 c2 c3 : Z * Z) (name : string)
           (args : option (list (string * string))) (w : World)
  : World * Reply :=
  if String.eqb name "search_whistle_docs" then searchTool env c1 args w
  else if String.eqb name "get_whistle_feature"
       then featureTool env c1 c2 c3 args w
  else if String.eqb name "refresh_whistle_docs" then refreshTool env c1 w
  else (w, McpError MethodNotFound ("Unknown tool: " ++ name)).

(** ** Vocabulary of the statements about the map *)

(** The map holds every section under its own id, once. *)
Definition wellKeyed (m : list (string * DocSection)) : Prop :=
  NoDup (assoc_keys m) /\ forall k s, In (k, s) m -> id s = k.

(** The first section of a list that matches a query. *)
Definition firstMatch (query : string) (secs : list DocSection)
  : option DocSection :=
  match filter (matches query) secs with
  | [] => None
  | s :: _ => Some s
  end.

(** The ids of a list of stubs. *)
Definition stubIds (stubs : list DocSection) : list string := map id stubs.

(** Two links of the sample site that get the same id. *)
Definition twinIndexPage : Document :=
  fun selector =>
    if String.eqb selector "nav ul li a"
    then [mkElement (Some "/whistle/rules.html") "Rules";
          mkElement (Some "rules") "Rules again"]
    else [].

(** The sample site, with [twinIndexPage] as its index page. *)
Definition twinEnv : Env :=
  mkEnv (fun n u => if String.eqb u BASE_URL then Some twinIndexPage
                    else sampleSite n u)
        resolveSample (fun _ => true) true (fun _ => true).

(** The map holds, for the id [k], a section with the content of the record
    of [k]. *)
Definition servedFromStore (k : string) (w : World) : Prop :=
  exists s c, assoc_get k (sections w) = Some s
              /\ assoc_get (cachePath k) (files w) = Some (Json c)
              /\ content s = content c.



(** A stub as the index parser makes them. *)
Definition isStub (s : DocSection) : Prop :=
  id s <> "" /\ title s <> "" /\ content s = "".

(** * Properties *)

(** ** Strings *)

Module JSFacts.
Import JS.

Lemma take_drop (n : nat) (s : string) : take n s ++ drop n s = s.
Proof.
  revert s; induction n as [|n IH]; intros [|c s]; simpl; try reflexivity.
  now rewrite IH.
Qed.

Lemma length_app (s t : string) :
  String.length (s ++ t) = (String.length s + String.length t)%nat.
Proof. induction s as [|c s IH]; simpl; [reflexivity | now rewrite IH]. Qed.

Lemma app_assoc (s t u : string) : (s ++ t) ++ u = s ++ t ++ u.
Proof. induction s as [|c s IH]; simpl; [reflexivity | now rewrite IH]. Qed.

Lemma app_empty_r (s : string) : s ++ "" = s.
Proof. induction s as [|c s IH]; simpl; [reflexivity | now rewrite IH]. Qed.

Lemma length_take (n : nat) (s : string) :
  String.length (take n s) = Nat.min n (String.length s).
Proof.
  revert s; induction n as [|n IH]; intros [|c s]; simpl; try reflexivity.
  now rewrite IH.
Qed.

Lemma length_drop (n : nat) (s : string) :
  String.length (drop n s) = (String.length s - n)%nat.
Proof.
  revert s; induction n as [|n IH]; intros [|c s]; simpl; try reflexivity.
  now rewrite IH.
Qed.

Lemma take_app_length (s t : string) : take (String.length s) (s ++ t) = s.
Proof. induction s as [|c s IH]; simpl; [now destruct t | now rewrite IH]. Qed.

Lemma drop_app_length (s t : string) : drop (String.length s) (s ++ t) = t.
Proof. induction s as [|c s IH]; simpl; [reflexivity | exact IH]. Qed.

Lemma drop_drop (n m : nat) (s : string) :
  drop n (drop m s) = drop (m + n) s.
Proof.
  revert s; induction m as [|m IH]; intros s; simpl; [reflexivity|].
  destruct s as [|c s]; [now destruct n | apply IH].
Qed.

(** Cutting a prefix in two. *)
Lemma take_add (n m : nat) (s : string) :
  take (n + m) s = take n s ++ take m (drop n s).
Proof.
  revert s; induction n as [|n IH]; intros s; simpl.
  - now destruct s.
  - destruct s as [|c s]; simpl; [now destruct m | now rewrite IH].
Qed.

Lemma take_all (n : nat) (s : string) :
  (String.length s <= n)%nat -> take n s = s.
Proof.
  revert s; induction n as [|n IH]; intros [|c s] H; simpl in *;
    try reflexivity; [lia | rewrite IH; [reflexivity | lia]].
Qed.

Lemma startsWith_app (p r : string) : startsWith (p ++ r) p = true.
Proof.
  induction p as [|c p IH]; simpl; [reflexivity|].
  now rewrite Ascii.eqb_refl, IH.
Qed.

Lemma startsWith_true (s p : string) :
  startsWith s p = true -> s = p ++ drop (String.length p) s.
Proof.
  revert s; induction p as [|c p IH]; intros s H; simpl in *; [reflexivity|].
  destruct s as [|d s]; [discriminate|].
  apply andb_true_iff in H as [Hc Hp].
  apply Ascii.eqb_eq in Hc; subst d. simpl. f_equal. now apply IH.
Qed.

(** [startsWith] is the prefix relation. *)
Lemma startsWith_iff (s p : string) :
  startsWith s p = true <-> exists r, s = p ++ r.
Proof.
  split.
  - intros H; eexists; now apply startsWith_true.
  - intros [r ->]; apply startsWith_app.
Qed.

Lemma startsWith_take (s p : string) :
  startsWith s p = true <-> take (String.length p) s = p
                            /\ (String.length p <= String.length s)%nat.
Proof.
  split.
  - intros H; apply startsWith_true in H.
    split.
    + rewrite H at 1. apply take_app_length.
    + rewrite H, length_app; lia.
  - intros [H _]. apply startsWith_iff.
    exists (drop (String.length p) s).
    rewrite <- H at 1. symmetry; apply take_drop.
Qed.

(** What [indexOfFrom] answers: [-1] when no suffix of [s] starts with [q],
    and otherwise the offset of the first suffix that does. *)
Lemma indexOfFrom_spec (s q : string) (i : Z) :
  (indexOfFrom s q i = -1 /\ 0 <= i ->
     forall n, (n <= String.length s)%nat -> startsWith (drop n s) q = false)
  /\ (0 <= i -> indexOfFrom s q i <> -1 ->
      exists n, indexOfFrom s q i = i + Z.of_nat n
                /\ (n <= String.length s)%nat
                /\ startsWith (drop n s) q = true
                /\ forall m, (m < n)%nat -> startsWith (drop m s) q = false).
Proof.
  revert i; induction s as [|c s IH]; intros i; simpl.
  - destruct (startsWith "" q) eqn:E.
    + split.
      * intros [H1 H2]; lia.
      * intros _ _. exists 0%nat. simpl. repeat split; auto; try lia.
    + split.
      * intros _ n Hn. assert (n = 0%nat) by lia. subst; simpl; exact E.
      * intros _ H; congruence.
  - destruct (startsWith (String c s) q) eqn:E.
    + split.
      * intros [H1 H2]; lia.
      * intros _ _. exists 0%nat. simpl. repeat split; auto; try lia.
    + destruct (IH (i + 1)) as [IH1 IH2]. split.
      * intros [H1 H2] n Hn. destruct n as [|n]; simpl; [exact E|].
        apply IH1; [split; [exact H1 | lia] | lia].
      * intros Hi Hne. destruct IH2 as (n & Hn1 & Hn2 & Hn3 & Hn4);
          [lia | exact Hne |].
        exists (S n). repeat split.
        -- rewrite Hn1. lia.
        -- lia.
        -- exact Hn3.
        -- intros m Hm. destruct m as [|m]; simpl; [exact E|].
           apply Hn4; lia.
Qed.

Lemma indexOfFrom_range (s q : string) (i : Z) :
  0 <= i -> indexOfFrom s q i = -1 \/ i <= indexOfFrom s q i.
Proof.
  intros Hi. destruct (Z.eq_dec (indexOfFrom s q i) (-1)) as [E|E]; [now left|].
  right. destruct (proj2 (indexOfFrom_spec s q i) Hi E) as (n & -> & _). lia.
Qed.

(** [indexOf] finds the first occurrence. *)
Lemma indexOf_found (s q : string) :
  indexOf s q <> -1 ->
  exists n, indexOf s q = Z.of_nat n
            /\ (n + String.length q <= String.length s)%nat
            /\ take (String.length q) (drop n s) = q
            /\ forall m, (m < n)%nat ->
                         take (String.length q) (drop m s) <> q
                         \/ (String.length s < m + String.length q)%nat.
Proof.
  intros H. unfold indexOf in *.
  destruct (proj2 (indexOfFrom_spec s q 0) (Z.le_refl 0) H)
    as (n & Hn1 & Hn2 & Hn3 & Hn4).
  exists n. apply startsWith_take in Hn3 as [Ht Hl].
  rewrite length_drop in Hl.
  repeat split; [rewrite Hn1; lia | lia | exact Ht |].
  intros m Hm. specialize (Hn4 m Hm).
  destruct (Nat.le_gt_cases (m + String.length q) (String.length s)) as [L|L];
    [left | right; exact L].
  intros Ht'. assert (startsWith (drop m s) q = true); [|congruence].
  apply startsWith_take. split; [exact Ht' | rewrite length_drop; lia].
Qed.

Lemma indexOf_absent (s q pre post : string) :
  indexOf s q = -1 -> s <> pre ++ q ++ post.
Proof.
  intros H E. unfold indexOf in H.
  pose proof (proj1 (indexOfFrom_spec s q 0) (conj H (Z.le_refl 0))
                    (String.length pre)) as F.
  rewrite E, drop_app_length, startsWith_app in F.
  rewrite length_app in F. discriminate F. lia.
Qed.

(** [includes] is the substring relation. *)
Lemma includes_iff (s q : string) :
  includes s q = true <-> exists pre post, s = pre ++ q ++ post.
Proof.
  unfold includes. split.
  - intros H. apply negb_true_iff, Z.eqb_neq in H.
    destruct (indexOf_found s q H) as (n & _ & Hl & Ht & _).
    exists (take n s), (drop (String.length q) (drop n s)).
    rewrite <- Ht at 1. now rewrite take_drop, take_drop.
  - intros (pre & post & E). apply negb_true_iff, Z.eqb_neq.
    intros H. exact (indexOf_absent s q pre post H E).
Qed.

Lemma toLowerCase_length (s : string) :
  String.length (toLowerCase s) = String.length s.
Proof. induction s as [|c s IH]; simpl; [reflexivity | now rewrite IH]. Qed.

Lemma toLowerCase_app (s t : string) :
  toLowerCase (s ++ t) = toLowerCase s ++ toLowerCase t.
Proof. induction s as [|c s IH]; simpl; [reflexivity | now rewrite IH]. Qed.

Lemma toLowerCase_take (n : nat) (s : string) :
  toLowerCase (take n s) = take n (toLowerCase s).
Proof.
  revert s; induction n as [|n IH]; intros [|c s]; simpl; try reflexivity.
  now rewrite IH.
Qed.

Lemma toLowerCase_drop (n : nat) (s : string) :
  toLowerCase (drop n s) = drop n (toLowerCase s).
Proof.
  revert s; induction n as [|n IH]; intros [|c s]; simpl; try reflexivity.
  apply IH.
Qed.

(** [substring] inside the bounds of the string. *)
Lemma substring_inside (s : string) (a b : Z) :
  0 <= a <= b -> b <= length s ->
  substring s a b = take (Z.to_nat (b - a)) (drop (Z.to_nat a) s).
Proof.
  intros Ha Hb. unfold substring, clamp.
  replace (Z.min (Z.max a 0) (length s)) with a by lia.
  replace (Z.min (Z.max b 0) (length s)) with b by lia.
  now replace (Z.min a b) with a by lia; replace (Z.max a b) with b by lia.
Qed.

Lemma substring_length (s : string) (a b : Z) :
  0 <= a <= b -> b <= length s -> length (substring s a b) = b - a.
Proof.
  intros Ha Hb. rewrite substring_inside by assumption.
  unfold length in *. rewrite length_take, length_drop. lia.
Qed.

(** A window [a, b) around [i, j) is the text before, the text of [i, j)
    and the text after. *)
Lemma substring_split (s : string) (a i j b : Z) :
  0 <= a <= i -> i <= j <= b -> b <= length s ->
  substring s a b = substring s a i ++ substring s i j ++ substring s j b.
Proof.
  intros Ha Hi Hb.
  rewrite !substring_inside by lia.
  replace (Z.to_nat (b - a))
    with (Z.to_nat (i - a) + (Z.to_nat (j - i) + Z.to_nat (b - j)))%nat by lia.
  rewrite take_add, drop_drop, take_add, drop_drop.
  replace (Z.to_nat a + Z.to_nat (i - a))%nat with (Z.to_nat i) by lia.
  now replace (Z.to_nat i + Z.to_nat (j - i))%nat with (Z.to_nat j) by lia.
Qed.

Lemma toLowerCase_substring (s : string) (a b : Z) :
  toLowerCase (substring s a b) = substring (toLowerCase s) a b.
Proof.
  unfold substring, length.
  now rewrite toLowerCase_take, toLowerCase_drop, toLowerCase_length.
Qed.

End JSFacts.

(** ** Search *)

Section SearchFacts.
Import JS JSFacts.

Lemma occursIn_includes (q s : string) :
  occursIn q s <-> includes (toLowerCase s) (toLowerCase q) = true.
Proof. unfold occursIn. symmetry. apply includes_iff. Qed.

Lemma matches_iff (query : string) (section : DocSection) :
  matches query section = true
  <-> occursIn query (title section) \/ occursIn query (content section).
Proof.
  unfold matches. rewrite orb_true_iff, !occursIn_includes. reflexivity.
Qed.

(** The loop of [search] keeps the sections that match, in order. *)
Lemma scan_filter (query : string) (secs : list DocSection) :
  scan query secs
  = map (fun s => resultOf s (excerpt query s)) (filter (matches query) secs).
Proof.
  induction secs as [|s secs IH]; simpl; [reflexivity|].
  destruct (matches query s); simpl; now rewrite IH.
Qed.

Lemma in_scan (query : string) (secs : list DocSection) (r : SearchResult) :
  In r (scan query secs)
  <-> exists s, In s secs /\ matches query s = true
                /\ r = resultOf s (excerpt query s).
Proof.
  rewrite scan_filter, in_map_iff. split.
  - intros (s & <- & H). apply filter_In in H as [H1 H2]. now exists s.
  - intros (s & H1 & H2 & ->). exists s. split; [reflexivity|].
    apply filter_In. now split.
Qed.

(** The excerpt when the content holds an occurrence: the window, with the
    markers on the sides where it was cut. *)
Lemma excerpt_found (query : string) (section : DocSection) :
  indexOf (toLowerCase (content section)) (toLowerCase query) <> -1 ->
  let index := indexOf (toLowerCase (content section)) (toLowerCase query) in
  let start := Z.max 0 (index - 100) in
  let end_ := Z.min (length (content section))
                    (index + length query + 100) in
  excerpt query section
  = ellipsisIf (0 <? start)
    ++ substring (content section) start end_
    ++ ellipsisIf (end_ <? length (content section)).
Proof.
  intros H index start end_. unfold excerpt.
  fold index. fold start. fold end_.
  apply Z.eqb_neq in H. fold index in H. rewrite H. simpl negb. cbv iota.
  destruct (0 <? start), (end_ <? length (content section));
    unfold ellipsisIf; cbn [append];
    rewrite ?app_empty_r; reflexivity.
Qed.

Lemma excerpt_absent (query : string) (section : DocSection) :
  indexOf (toLowerCase (content section)) (toLowerCase query) = -1 ->
  excerpt query section = substring (content section) 0 200 ++ "...".
Proof. intros H. unfold excerpt. now rewrite H. Qed.

Lemma substring_short (s : string) (j n : Z) (q : string) :
  0 <= j <= length s -> length s < j + n -> length q = n ->
  substring s j (j + n) <> q.
Proof.
  intros Hj Hs Hq E.
  assert (L : length (substring s j (j + n)) < n).
  { unfold substring, clamp, length in *.
    rewrite length_take, length_drop. lia. }
  rewrite E in L. lia.
Qed.

(** The first occurrence, in the terms of [substring]. *)
Lemma indexOf_first (s q : string) :
  indexOf s q <> -1 ->
  let i := indexOf s q in
  0 <= i /\ i + length q <= length s
  /\ substring s i (i + length q) = q
  /\ forall j, 0 <= j < i -> substring s j (j + length q) <> q.
Proof.
  intros H i. destruct (indexOf_found s q H) as (n & Hn & Hl & Ht & Hf).
  fold i in Hn. unfold length.
  repeat split; try lia.
  - rewrite substring_inside by (unfold length; lia).
    rewrite Hn.
    replace (Z.to_nat (Z.of_nat n + Z.of_nat (String.length q) - Z.of_nat n))
      with (String.length q) by lia.
    now rewrite Nat2Z.id.
  - intros j Hj.
    destruct (Hf (Z.to_nat j)) as [F|F]; [lia | |].
    + destruct (Z.le_gt_cases (j + Z.of_nat (String.length q))
                              (Z.of_nat (String.length s))) as [L|L].
      * rewrite substring_inside by (unfold length; lia).
        now replace (Z.to_nat (j + Z.of_nat (String.length q) - j))
          with (String.length q) by lia.
      * apply substring_short; unfold length; lia.
    + apply substring_short; unfold length; lia.
Qed.

End SearchFacts.

Section SearchClaims.
Import JS JSFacts.

(** [search] returns whenever [initialize] does, with the scan of the map. *)
Lemma search_after_initialize (env : Env) (t0 t1 : Z) (query : string)
      (w w' : World) :
  initialize env t0 t1 w = Returned w' tt ->
  search env t0 t1 query w
  = Returned w' (scan query (assoc_values (sections w'))).
Proof. intros H. unfold search. now rewrite H. Qed.

(** [search] throws whenever [initialize] does. *)
Lemma search_after_throw (env : Env) (t0 t1 : Z) (query : string)
      (w w' : World) (e : string) :
  initialize env t0 t1 w = Thrown w' e ->
  search env t0 t1 query w = Thrown w' e.
Proof. intros H. unfold search. now rewrite H. Qed.

Lemma substring_0_200 (c : string) : substring c 0 200 = take 200 c.
Proof.
  unfold substring, clamp, length.
  destruct (Z.le_gt_cases 200 (Z.of_nat (String.length c))) as [L|L].
  - replace (Z.min (Z.max 200 0) (Z.of_nat (String.length c)))
      with 200 by lia.
    replace (Z.min (Z.max 0 0) (Z.of_nat (String.length c))) with 0 by lia.
    reflexivity.
  - replace (Z.min (Z.max 200 0) (Z.of_nat (String.length c)))
      with (Z.of_nat (String.length c)) by lia.
    replace (Z.min (Z.max 0 0) (Z.of_nat (String.length c))) with 0 by lia.
    replace (Z.min 0 (Z.of_nat (String.length c))) with 0 by lia.
    replace (Z.max 0 (Z.of_nat (String.length c)))
      with (Z.of_nat (String.length c)) by lia.
    rewrite Z.sub_0_r, Nat2Z.id. simpl drop.
    rewrite !take_all; [reflexivity | lia | lia].
Qed.

End SearchClaims.

(** The excerpt of a content match, on text of 8-bit code units, where
    lower-casing keeps every character at its position.  When
    [initialize()] returns, [search(query)] returns, and every section [s] of
    the map in whose content the query occurs case-insensitively has a result
    whose excerpt is the window of the content from [start = max(0, i - 100)]
    to [end = min(length, i + query.length + 100)], where [i] is the first
    case-insensitive occurrence; the window holds the matched text; ["..."]
    is put in front exactly when [start > 0] and behind exactly when
    [end < length].  The code takes [i] in the lower-cased content and cuts
    the content itself at [i]: outside such text, where lower-casing changes
    the length, the window can miss the match. *)
Theorem search_content_excerpt
        (env : Env) (t0 t1 : Z) (query : string) (w w' : World)
        (s : DocSection) :
  initialize env t0 t1 w = Returned w' tt ->
  In s (assoc_values (sections w')) ->
  occursIn query (content s) ->
  let i := JS.indexOf (JS.toLowerCase (content s)) (JS.toLowerCase query) in
  let start := Z.max 0 (i - 100) in
  let end_ := Z.min (JS.length (content s)) (i + JS.length query + 100) in
  let matched := JS.substring (content s) i (i + JS.length query) in
  exists results,
    search env t0 t1 query w = Returned w' results
    /\ (0 <= i /\ i + JS.length query <= JS.length (content s)
        /\ JS.toLowerCase matched = JS.toLowerCase query
        /\ forall j, 0 <= j < i ->
             JS.toLowerCase (JS.substring (content s) j (j + JS.length query))
             <> JS.toLowerCase query)
    /\ In (resultOf s (ellipsisIf (0 <? start)
                       ++ JS.substring (content s) start end_
                       ++ ellipsisIf (end_ <? JS.length (content s))))
          results
    /\ (exists before after,
          JS.substring (content s) start end_ = before ++ matched ++ after)
    /\ (0 <= start <= i /\ i + JS.length query <= end_ <= JS.length (content s)
        /\ JS.length (JS.substring (content s) start end_)
           <= JS.length query + 200).
Proof.
  intros Hs Hin Hocc i start end_ matched.
  exists (scan query (assoc_values (sections w'))).
  split; [now apply search_after_initialize|].
  pose proof (proj1 (occursIn_includes _ _) Hocc) as Hinc.
  assert (Hne : i <> -1).
  { unfold JS.includes in Hinc.
    apply negb_true_iff, Z.eqb_neq in Hinc. exact Hinc. }
  destruct (indexOf_first _ _ Hne) as (Hi0 & Hi1 & Hi2 & Hi3).
  fold i in Hi0, Hi1, Hi2, Hi3.
  assert (Lq : JS.length (JS.toLowerCase query) = JS.length query).
  { unfold JS.length. now rewrite JSFacts.toLowerCase_length. }
  assert (Lc : JS.length (JS.toLowerCase (content s)) = JS.length (content s)).
  { unfold JS.length. now rewrite JSFacts.toLowerCase_length. }
  rewrite Lq in Hi1, Hi2, Hi3. rewrite Lc in Hi1.
  assert (Hq0 : 0 <= JS.length query) by (unfold JS.length; lia).
  repeat split; try lia.
  - unfold matched. now rewrite JSFacts.toLowerCase_substring.
  - intros j Hj. rewrite JSFacts.toLowerCase_substring. now apply Hi3.
  - apply in_scan. exists s. repeat split.
    + exact Hin.
    + apply matches_iff. now right.
    + f_equal. symmetry. now apply excerpt_found.
  - exists (JS.substring (content s) start i),
           (JS.substring (content s) (i + JS.length query) end_).
    apply JSFacts.substring_split; lia.
  - rewrite JSFacts.substring_length by lia. lia.
Qed.

Lemma search_content_excerpt_witness :
  exists results,
    search sampleEnv 2000 2000 "Plugin" sampleWorld
    = Returned sampleWorld results
    /\ In (resultOf pluginsSection
             ("" ++ "Whistle supports custom plugins for extension" ++ ""))
          results.
Proof.
  destruct (search_content_excerpt sampleEnv 2000 2000 "Plugin"
              sampleWorld sampleWorld pluginsSection)
    as (results & R & _ & I & _).
  - vm_compute. reflexivity.
  - vm_compute. right. left. reflexivity.
  - exists "whistle supports custom ", "s for extension". vm_compute. reflexivity.
  - exists results. split; [exact R | exact I].
Defined.

(** C2. When [initialize()] returns, [search(query)] returns, and for a
    non-empty query every result is the result of a section of the map (same
    id, title and url) whose title or content holds the query
    case-insensitively. *)
Theorem search_no_false_positive
        (env : Env) (t0 t1 : Z) (query : string) (w w' : World) :
  query <> "" ->
  initialize env t0 t1 w = Returned w' tt ->
  exists results,
    search env t0 t1 query w = Returned w' results
    /\ forall r, In r results ->
         exists s, In s (assoc_values (sections w'))
                   /\ sectionId r = id s /\ sectionTitle r = title s
                   /\ resultUrl r = url s
                   /\ (occursIn query (title s) \/ occursIn query (content s)).
Proof.
  intros _ Hs. exists (scan query (assoc_values (sections w'))).
  split; [now apply search_after_initialize|].
  intros r Hr. apply in_scan in Hr as (s & Hin & Hm & ->).
  exists s. repeat split; try assumption. now apply matches_iff.
Qed.

Lemma search_no_false_positive_witness :
  exists results,
    search sampleEnv 2000 2000 "Plugin" sampleWorld
    = Returned sampleWorld results
    /\ forall r, In r results ->
         exists s, In s (assoc_values (sections sampleWorld))
                   /\ sectionId r = id s /\ sectionTitle r = title s
                   /\ resultUrl r = url s
                   /\ (occursIn "Plugin" (title s)
                       \/ occursIn "Plugin" (content s)).
Proof.
  apply (search_no_false_positive sampleEnv 2000 2000 "Plugin"
           sampleWorld sampleWorld).
  - discriminate.
  - vm_compute. reflexivity.
Defined.

(** C8. When [initialize()] returns, [search(query)] returns, and a section
    of the map whose title holds the query but whose content does not has a
    result whose excerpt is the first 200 characters of the content followed
    by ["..."], whatever the length of the content. *)
Theorem search_title_only
        (env : Env) (t0 t1 : Z) (query : string) (w w' : World)
        (s : DocSection) :
  initialize env t0 t1 w = Returned w' tt ->
  In s (assoc_values (sections w')) ->
  occursIn query (title s) ->
  ~ occursIn query (content s) ->
  exists results,
    search env t0 t1 query w = Returned w' results
    /\ In (resultOf s (JS.take 200 (content s) ++ "...")) results
    /\ excerpt query s = JS.substring (content s) 0 200 ++ "..."
    /\ JS.substring (content s) 0 200 = JS.take 200 (content s)
    /\ (content s = "" -> excerpt query s = "...").
Proof.
  intros Hs Hin Ht Hc. exists (scan query (assoc_values (sections w'))).
  split; [now apply search_after_initialize|].
  assert (Hi : JS.indexOf (JS.toLowerCase (content s)) (JS.toLowerCase query)
               = -1).
  { destruct (Z.eq_dec (JS.indexOf (JS.toLowerCase (content s))
                                   (JS.toLowerCase query)) (-1)) as [E|E];
      [exact E|].
    exfalso. apply Hc. apply occursIn_includes. unfold JS.includes.
    now apply negb_true_iff, Z.eqb_neq. }
  pose proof (substring_0_200 (content s)) as Hsub.
  pose proof (excerpt_absent query s Hi) as He.
  repeat split.
  - apply in_scan. exists s. repeat split.
    + exact Hin.
    + apply matches_iff. now left.
    + now rewrite He, Hsub.
  - exact He.
  - exact Hsub.
  - intros E. rewrite He, E. reflexivity.
Qed.

Lemma search_title_only_witness :
  exists results,
    search sampleEnv 2000 2000 "RULE" sampleWorld
    = Returned sampleWorld results
    /\ In (resultOf rulesSection ("Map requests to operations" ++ "..."))
          results.
Proof.
  destruct (search_title_only sampleEnv 2000 2000 "RULE" sampleWorld
              sampleWorld rulesSection) as (results & R & I & _).
  - vm_compute. reflexivity.
  - vm_compute. left. reflexivity.
  - exists "", "s". vm_compute. reflexivity.
  - intros H. apply occursIn_includes in H. vm_compute in H. discriminate H.
  - exists results. split; [exact R | exact I].
Defined.

(** C10. When [initialize()] returns, [search("")] returns one result per
    section of the map, in the order of the map; the excerpt of each is the
    content from index 0 to [min(length, 100)], with no ["..."] in front, and
    ["..."] behind exactly when the content is longer than 100 characters. *)
Theorem search_empty_query
        (env : Env) (t0 t1 : Z) (w w' : World) :
  initialize env t0 t1 w = Returned w' tt ->
  search env t0 t1 "" w
  = Returned w'
      (map (fun s =>
              resultOf s
                (JS.substring (content s) 0 (Z.min (JS.length (content s)) 100)
                 ++ ellipsisIf (100 <? JS.length (content s))))
           (assoc_values (sections w')))
  /\ forall s, JS.indexOf (JS.toLowerCase (content s)) (JS.toLowerCase "") = 0
               /\ matches "" s = true.
Proof.
  intros Hs. rewrite (search_after_initialize env t0 t1 "" w w' Hs).
  assert (I0 : forall c, JS.indexOf c "" = 0) by (intros [|a c]; reflexivity).
  assert (M : forall s, matches "" s = true).
  { intros s. unfold matches, JS.includes. simpl JS.toLowerCase.
    now rewrite !I0. }
  split; [|intros s; split; [apply I0 | apply M]].
  f_equal.
  induction (assoc_values (sections w')) as [|s l IH]; simpl; [reflexivity|].
  rewrite M, IH. f_equal. f_equal.
  unfold excerpt. simpl JS.toLowerCase. rewrite I0.
  change (JS.length "") with 0. simpl.
  replace (Z.min (JS.length (content s)) 100 <? JS.length (content s))
    with (100 <? JS.length (content s)).
  - destruct (100 <? JS.length (content s)); simpl; [reflexivity|].
    now rewrite JSFacts.app_empty_r.
  - destruct (100 <? JS.length (content s)) eqn:E; symmetry.
    + apply Z.ltb_lt in E. apply Z.ltb_lt. lia.
    + apply Z.ltb_ge in E. apply Z.ltb_ge. lia.
Qed.

Lemma search_empty_query_witness :
  search sampleEnv 2000 2000 "" sampleWorld
  = Returned sampleWorld
      [resultOf rulesSection "Map requests to operations";
       resultOf pluginsSection "Whistle supports custom plugins for extension"].
Proof.
  refine (proj1 (search_empty_query sampleEnv 2000 2000 sampleWorld sampleWorld
            _)).
  vm_compute. reflexivity.
Defined.

(** ** The crawl *)

Section Crawl.
Variable env : Env.

Lemma loadSection_state (w : World) (s : DocSection) :
  lastFetchTime (loadSection env w s) = lastFetchTime w
  /\ isInitialized (loadSection env w s) = isInitialized w
  /\ filter isIndexRequest (requests (loadSection env w s))
     = filter isIndexRequest (requests w).
Proof.
  unfold loadSection, getCachedContent, fetchUrl, saveCachedContent.
  destruct (assoc_get (cachePath (id s)) (files w)) as [[c|]|]; simpl;
    try (repeat split; reflexivity);
    destruct (curl env (List.length (requests w)) (url s)); simpl;
    try destruct (writable env _); simpl;
    rewrite filter_app; simpl; rewrite app_nil_r; repeat split; reflexivity.
Qed.

Lemma crawl_state (stubs : list DocSection) (w : World) :
  lastFetchTime (fold_left (loadSection env) stubs w) = lastFetchTime w
  /\ isInitialized (fold_left (loadSection env) stubs w) = isInitialized w
  /\ filter isIndexRequest (requests (fold_left (loadSection env) stubs w))
     = filter isIndexRequest (requests w).
Proof.
  revert w; induction stubs as [|s stubs IH]; intros w; simpl;
    [repeat split; reflexivity|].
  destruct (IH (loadSection env w s)) as (-> & -> & ->).
  apply loadSection_state.
Qed.

(** The three ways [initialize] ends. *)
Lemma initialize_cases (t0 t1 : Z) (w : World) :
  (isInitialized w && (t0 - lastFetchTime w <? CACHE_TTL) = true
   /\ initialize env t0 t1 w = Returned w tt)
  \/ (mustCrawl t0 w
      /\ (indexResponse env w = None
          \/ exists doc, indexResponse env w = Some doc
                         /\ indexSections env doc = None)
      /\ initialize env t0 t1 w = Thrown (addRequest IndexRequest w) initError)
  \/ (mustCrawl t0 w
      /\ exists doc stubs,
           indexResponse env w = Some doc
           /\ indexSections env doc = Some stubs
           /\ initialize env t0 t1 w
              = Returned (setInitialized t1 true
                            (fold_left (loadSection env) stubs
                                       (addRequest IndexRequest w))) tt).
Proof.
  unfold initialize, mustCrawl, indexResponse, fetchUrl.
  destruct (isInitialized w && (t0 - lastFetchTime w <? CACHE_TTL));
    [left; now split | right].
  destruct (curl env (List.length (requests w)) BASE_URL) as [doc|].
  - destruct (indexSections env doc) as [stubs|] eqn:E.
    + right. split; [reflexivity|]. exists doc, stubs. now repeat split.
    + left. split; [reflexivity|]. split; [|reflexivity].
      right. exists doc. now split.
  - left. split; [reflexivity|]. split; [now left | reflexivity].
Qed.

Lemma initialize_returned (t0 t1 : Z) (w w' : World) :
  initialize env t0 t1 w = Returned w' tt ->
  isInitialized w' = true
  /\ (indexFetches w' <= indexFetches w + 1)%nat.
Proof.
  intros H.
  destruct (initialize_cases t0 t1 w)
    as [[C E]|[(_ & _ & E)|(_ & doc & stubs & _ & _ & E)]];
    rewrite E in H; inversion H; subst; clear H.
  - apply andb_true_iff in C as [C _]. split; [exact C | lia].
  - split; [reflexivity|]. unfold indexFetches. simpl.
    destruct (crawl_state stubs (addRequest IndexRequest w)) as (_ & _ & ->).
    simpl. rewrite filter_app, length_app. simpl. lia.
Qed.

End Crawl.

(** C3. [initialize()] on a cache that is initialized and younger than the
    TTL of 3,600,000 ms returns at once: no request is made and the sections,
    [lastFetchTime], [isInitialized] and the files are as before.  Hence a
    second call within the TTL after a call that returned changes nothing,
    and the two calls requested the index page at most once. *)
Theorem initialize_within_ttl (env env' : Env) (t0 t1 t2 t3 : Z) (w : World) :
  CACHE_TTL = 3600000
  /\ (isInitialized w = true -> t0 - lastFetchTime w < CACHE_TTL ->
      initialize env t0 t1 w = Returned w tt)
  /\ (forall w1,
        initialize env t0 t1 w = Returned w1 tt ->
        t2 - lastFetchTime w1 < CACHE_TTL ->
        initialize env' t2 t3 w1 = Returned w1 tt
        /\ (indexFetches (worldOf (initialize env' t2 t3 w1))
            <= indexFetches w + 1)%nat).
Proof.
  split; [reflexivity|].
  assert (N : forall e a b v, isInitialized v = true ->
                a - lastFetchTime v < CACHE_TTL ->
                initialize e a b v = Returned v tt).
  { intros e a b v Hi Hf. unfold initialize. rewrite Hi.
    apply Z.ltb_lt in Hf. now rewrite Hf. }
  split; [apply N|].
  intros w1 H1 H2. destruct (initialize_returned env t0 t1 w w1 H1) as [I F].
  rewrite (N env' t2 t3 w1 I H2). split; [reflexivity | exact F].
Qed.

Lemma initialize_within_ttl_witness :
  initialize sampleEnv 2000 2000 sampleWorld = Returned sampleWorld tt
  /\ (indexFetches (worldOf (initialize sampleEnv 2000 2000 sampleWorld))
      <= indexFetches (newCache []) + 1)%nat.
Proof.
  refine (proj2 (proj2
    (initialize_within_ttl sampleEnv sampleEnv 1000 1000 2000 2000
                           (newCache []))) sampleWorld _ _).
  - vm_compute. reflexivity.
  - vm_compute. reflexivity.
Defined.

(** ** Parsing the index page *)

Section IndexParsing.
Variable env : Env.

Lemma eachLink_cons (el : Element) (links : list Element)
      (acc : list DocSection) :
  eachLink env (el :: links) acc
  = match href el with
    | Some h =>
        if validLink (Some h) then
          match resolveURL env h with
          | Some u =>
              eachLink env links
                (acc ++ [mkDocSection (sectionId_of h)
                           (orElse (JS.trim (text el)) (sectionId_of h))
                           "" u])
          | None => None
          end
        else eachLink env links acc
    | None => eachLink env links acc
    end.
Proof. reflexivity. Qed.

(** The accumulator only grows at its end. *)
Lemma eachLink_acc (links : list Element) (acc acc' : list DocSection) :
  eachLink env links (acc' ++ acc)
  = option_map (app acc') (eachLink env links acc).
Proof.
  revert acc; induction links as [|el links IH]; intros acc;
    [reflexivity|].
  rewrite !eachLink_cons. destruct (href el) as [h|]; [|apply IH].
  destruct (validLink (Some h)); [|apply IH].
  destruct (resolveURL env h) as [u|]; [|reflexivity].
  rewrite <- List.app_assoc. apply IH.
Qed.

(** What [links.each] collects: one stub per kept link, in order. *)
Lemma eachLink_stubs (links : list Element) (stubs : list DocSection) :
  eachLink env links [] = Some stubs ->
  Forall2 (isStubOf env) (keptLinks links) stubs.
Proof.
  revert stubs; induction links as [|el links IH]; intros stubs H.
  - simpl in H. inversion H. constructor.
  - rewrite eachLink_cons in H. unfold keptLinks. cbn [filter].
    destruct (href el) as [h|] eqn:Eh.
    + destruct (validLink (Some h)) eqn:Ev; [|now apply IH].
      destruct (resolveURL env h) as [u|] eqn:Eu; [|discriminate].
      pose proof (eachLink_acc links []
                    [mkDocSection (sectionId_of h)
                       (orElse (JS.trim (text el)) (sectionId_of h)) "" u])
        as A.
      rewrite app_nil_r in A. simpl app in H. rewrite A in H. clear A.
      destruct (eachLink env links []) as [rest|]; [|discriminate].
      simpl in H. inversion H; subst.
      constructor; [|now apply IH].
      exists h, u. now repeat split.
    + change (validLink None) with false. cbv iota. now apply IH.
Qed.

(** [links.each] throws exactly when a kept link cannot be resolved. *)
Lemma eachLink_throws (links : list Element) (acc : list DocSection) :
  eachLink env links acc = None
  <-> exists el h, In el links /\ href el = Some h
                   /\ validLink (Some h) = true /\ resolveURL env h = None.
Proof.
  revert acc; induction links as [|el links IH]; intros acc.
  - simpl. split; [discriminate | intros (el & h & [] & _)].
  - rewrite eachLink_cons.
    assert (T : (exists el' h, In el' links /\ href el' = Some h
                   /\ validLink (Some h) = true /\ resolveURL env h = None)
                -> exists el' h, In el' (el :: links) /\ href el' = Some h
                   /\ validLink (Some h) = true /\ resolveURL env h = None).
    { intros (el' & h' & Hin & H). exists el', h'.
      split; [now right | exact H]. }
    destruct (href el) as [h|] eqn:Eh.
    + destruct (validLink (Some h)) eqn:Ev.
      * destruct (resolveURL env h) as [u|] eqn:Eu.
        -- rewrite IH. split; [exact T|].
           intros (el' & h' & [<-|Hin] & H1 & H2 & H3).
           ++ rewrite Eh in H1. inversion H1; subst. congruence.
           ++ exists el', h'. now repeat split.
        -- split; [|reflexivity]. intros _. exists el, h.
           repeat split; auto. now left.
      * rewrite IH. split; [exact T|].
        intros (el' & h' & [<-|Hin] & H1 & H2 & H3).
        -- rewrite Eh in H1. inversion H1; subst. congruence.
        -- exists el', h'. now repeat split.
    + rewrite IH. split; [exact T|].
      intros (el' & h' & [<-|Hin] & H1 & H2 & H3).
      * congruence.
      * exists el', h'. now repeat split.
Qed.

Lemma keptLinks_nil (links : list Element) :
  (forall el, In el links -> validLink (href el) = false) ->
  keptLinks links = [].
Proof.
  intros H. unfold keptLinks. induction links as [|el links IH];
    [reflexivity|]. cbn [filter]. rewrite (H el (or_introl eq_refl)).
  apply IH. intros el' Hin. apply H. now right.
Qed.


Lemma firstLinks_nonempty (doc : Document) (sels : list string)
      (links : list Element) :
  firstLinks doc sels = Some links -> links <> [].
Proof.
  induction sels as [|s sels IH]; simpl; [discriminate|].
  destruct (doc s) eqn:E; [exact IH|].
  intros H; inversion H; subst. discriminate.
Qed.

Lemma firstLinks_none (doc : Document) (sels : list string) :
  firstLinks doc sels = None <-> forall s, In s sels -> doc s = [].
Proof.
  induction sels as [|s sels IH]; simpl.
  - split; [intros _ s [] | reflexivity].
  - destruct (doc s) eqn:E.
    + rewrite IH. split.
      * intros H s' [<-|Hin]; [exact E | now apply H].
      * intros H s' Hin. apply H. now right.
    + split; [discriminate|]. intros H.
      rewrite (H s (or_introl eq_refl)) in E. discriminate.
Qed.

Lemma indexSections_some (doc : Document) (stubs : list DocSection) :
  indexSections env doc = Some stubs -> stubs <> [].
Proof.
  unfold indexSections.
  destruct (firstLinks doc selectors) as [links|].
  - destruct (eachLink env links []) as [[|s l]|]; intros H;
      inversion H; subst; discriminate.
  - intros H; inversion H; subst; discriminate.
Qed.

Lemma indexSections_none (doc : Document) :
  indexSections env doc = None
  <-> exists links el h,
        firstLinks doc selectors = Some links /\ In el links
        /\ href el = Some h /\ validLink (Some h) = true
        /\ resolveURL env h = None.
Proof.
  unfold indexSections.
  destruct (firstLinks doc selectors) as [links|].
  - destruct (eachLink env links []) as [[|s l]|] eqn:E.
    + split; [discriminate|]. intros (links' & el & h & H & R).
      inversion H; subst links'.
      assert (eachLink env links [] = None)
        by (apply eachLink_throws; now exists el, h).
      congruence.
    + split; [discriminate|]. intros (links' & el & h & H & R).
      inversion H; subst links'.
      assert (eachLink env links [] = None)
        by (apply eachLink_throws; now exists el, h).
      congruence.
    + split; [|reflexivity]. intros _.
      apply eachLink_throws in E as (el & h & R).
      now exists links, el, h.
  - split; [discriminate|]. intros (links' & el & h & H & _). discriminate.
Qed.

(** The parser returns when every kept link can be resolved. *)
Lemma indexSections_total (doc : Document) :
  (forall links, firstLinks doc selectors = Some links ->
                 resolvable env links) ->
  exists stubs, indexSections env doc = Some stubs.
Proof.
  intros R. destruct (indexSections env doc) as [stubs|] eqn:E;
    [now exists stubs|].
  exfalso.
  apply indexSections_none in E as (links & el & h & L & I & H & V & U).
  exact (R links L el h I H V U).
Qed.

End IndexParsing.

(** C7, as the code has it.  When every link the parser keeps can be
    resolved against the base URL, the parser returns a list of stubs that is
    not empty; when no selector matches, or every link is filtered out, the
    list is the single stub with id ["index"] and the base URL. *)
Theorem indexSections_nonempty (env : Env) (doc : Document) :
  (forall links, firstLinks doc selectors = Some links -> resolvable env links) ->
  exists stubs,
    indexSections env doc = Some stubs /\ stubs <> []
    /\ ((firstLinks doc selectors = None
         \/ exists links, firstLinks doc selectors = Some links
                          /\ forall el, In el links ->
                                        validLink (href el) = false) ->
        stubs = [defaultSection])
    /\ id defaultSection = "index" /\ url defaultSection = BASE_URL.
Proof.
  intros R. destruct (indexSections_total env doc R) as (stubs & E).
  exists stubs. split; [exact E|].
  split; [now apply indexSections_some with env doc|].
  split; [|now split].
  unfold indexSections in E. intros [N|(links & L & F)].
  - rewrite N in E. now inversion E.
  - rewrite L in E.
    destruct (eachLink env links []) as [st|] eqn:El; [|discriminate].
    apply eachLink_stubs in El. rewrite (keptLinks_nil links F) in El.
    inversion El; subst. now inversion E.
Qed.

Lemma indexSections_nonempty_witness :
  exists stubs,
    indexSections sampleEnv httpsIndexPage = Some stubs /\ stubs <> []
    /\ ((firstLinks httpsIndexPage selectors = None
         \/ exists links, firstLinks httpsIndexPage selectors = Some links
                          /\ forall el, In el links ->
                                        validLink (href el) = false) ->
        stubs = [defaultSection])
    /\ id defaultSection = "index" /\ url defaultSection = BASE_URL.
Proof.
  apply (indexSections_nonempty sampleEnv httpsIndexPage).
  intros links L. vm_compute in L. inversion L; subst links.
  intros el h [<-|[]] H V. vm_compute in H. inversion H; subst h.
  vm_compute in V. discriminate V.
Defined.

(** C7, as stated, fails: a link whose target has an empty host makes
    [new URL] throw, and the parser returns no list at all. *)
Lemma indexSections_throws :
  firstLinks brokenIndexPage selectors
  = Some [mkElement (Some "/whistle/rules.html") "Rules";
          mkElement (Some "//") "Home"]
  /\ resolveURL sampleEnv "//" = None
  /\ ~ exists stubs, indexSections sampleEnv brokenIndexPage = Some stubs
                     /\ stubs <> [].
Proof.
  split; [reflexivity|]. split; [reflexivity|].
  intros (stubs & H & _). vm_compute in H. discriminate H.
Qed.

(** ** Maps and files *)

Section AssocFacts.
Context {V : Type}.
Implicit Types (m : list (string * V)) (k : string) (v : V).

Lemma assoc_get_set k k' v m :
  assoc_get k (assoc_set k' v m)
  = if String.eqb k k' then Some v else assoc_get k m.
Proof.
  induction m as [|[k0 v0] m IH]; simpl.
  - now destruct (String.eqb k k').
  - destruct (String.eqb k' k0) eqn:E; simpl.
    + apply String.eqb_eq in E; subst k0.
      now destruct (String.eqb k k').
    + destruct (String.eqb k k0) eqn:E0; [|exact IH].
      apply String.eqb_eq in E0; subst k0.
      rewrite String.eqb_sym in E. now rewrite E.
Qed.


End AssocFacts.

Section Files.
Variable env : Env.




Lemma cachePath_isRecord (i : string) : isRecord (cachePath i) = true.
Proof.
  unfold isRecord, cachePath, JS.endsWith.
  rewrite JSFacts.length_app. simpl String.length.
  replace (String.length i + 5 - 5)%nat with (String.length i) by lia.
  rewrite JSFacts.drop_app_length.
  apply andb_true_iff. split; [apply Nat.leb_le; lia | reflexivity].
Qed.

Lemma cachePath_inj (i j : string) : cachePath i = cachePath j -> i = j.
Proof.
  unfold cachePath. revert j; induction i as [|c i IH]; intros [|d j] H;
    simpl in H.
  - reflexivity.
  - exfalso. assert (L : String.length ".json"
                     = String.length (String d (j ++ ".json")))
      by now rewrite <- H.
    simpl in L. rewrite JSFacts.length_app in L. simpl in L. lia.
  - exfalso. assert (L : String.length (String c (i ++ ".json"))
                     = String.length ".json")
      by now rewrite H.
    simpl in L. rewrite JSFacts.length_app in L. simpl in L. lia.
  - inversion H; subst. f_equal. now apply IH.
Qed.

End Files.




(** ** Loading one section *)

Section LoadSection.
Variable env : Env.

(** The three ways the body of the loop ends: a cache hit, a failed fetch
    that the [catch] swallows, and a fetch followed by a save. *)
Lemma loadSection_cases (w : World) (s : DocSection) :
  (exists c,
      assoc_get (cachePath (id s)) (files w) = Some (Json c)
      /\ loadSection env w s
         = setSections
             (assoc_set (id s) (withContent s (content c))
                        (assoc_set (id c) c (sections w))) w)
  \/ (cacheMiss (id s) w
      /\ curl env (List.length (requests w)) (url s) = None
      /\ loadSection env w s = addRequest (SectionRequest (url s)) w)
  \/ (cacheMiss (id s) w
      /\ exists doc,
           curl env (List.length (requests w)) (url s) = Some doc
           /\ loadSection env w s
              = let s' := withContent s (pageContent doc) in
                let w' := saveCachedContent env s'
                            (addRequest (SectionRequest (url s)) w) in
                setSections (assoc_set (id s) s' (sections w')) w').
Proof.
  unfold loadSection, getCachedContent, fetchUrl, cacheMiss.
  destruct (assoc_get (cachePath (id s)) (files w)) as [[c|]|] eqn:E.
  - left. exists c. split; reflexivity.
  - right. destruct (curl env (List.length (requests w)) (url s)) as [doc|].
    + right. split; [congruence|]. exists doc. split; reflexivity.
    + left. repeat split; congruence.
  - right. destruct (curl env (List.length (requests w)) (url s)) as [doc|].
    + right. split; [congruence|]. exists doc. split; reflexivity.
    + left. repeat split; congruence.
Qed.

Lemma saveCachedContent_state (s : DocSection) (w : World) :
  sections (saveCachedContent env s w) = sections w
  /\ requests (saveCachedContent env s w) = requests w.
Proof.
  unfold saveCachedContent. now destruct (writable env _).
Qed.

Lemma saveCachedContent_get (s : DocSection) (w : World) (f : string) :
  assoc_get f (files (saveCachedContent env s w))
  = if writable env (cachePath (id s)) && String.eqb f (cachePath (id s))
    then Some (Json s) else assoc_get f (files w).
Proof.
  unfold saveCachedContent. destruct (writable env _); simpl;
    [apply assoc_get_set | reflexivity].
Qed.




(** Loading [s] writes no file but the record of [s]. *)
Lemma loadSection_files (w : World) (s : DocSection) (f : string) :
  assoc_get f (files (loadSection env w s)) = assoc_get f (files w)
  \/ (f = cachePath (id s) /\ cacheMiss (id s) w
      /\ exists doc,
           curl env (List.length (requests w)) (url s) = Some doc
           /\ assoc_get f (files (loadSection env w s))
              = Some (Json (withContent s (pageContent doc)))).
Proof.
  destruct (loadSection_cases w s)
    as [(c & E & ->)|[(_ & _ & ->)|(M & doc & E & ->)]];
    [now left | now left |].
  cbv zeta. simpl files. rewrite saveCachedContent_get.
  change (id (withContent s (pageContent doc))) with (id s).
  destruct (writable env (cachePath (id s))); simpl; [|now left].
  destruct (String.eqb f (cachePath (id s))) eqn:F; [|now left].
  apply String.eqb_eq in F. right. split; [exact F|]. split; [exact M|].
  now exists doc.
Qed.

Lemma loadSection_requests (w : World) (s : DocSection) :
  (List.length (requests w) <= List.length (requests (loadSection env w s)))%nat.
Proof.
  destruct (loadSection_cases w s)
    as [(c & E & ->)|[(_ & _ & ->)|(M & doc & E & ->)]]; simpl.
  - lia.
  - rewrite List.length_app. simpl. lia.
  - rewrite (proj2 (saveCachedContent_state _ _)). simpl.
    rewrite List.length_app. simpl. lia.
Qed.

End LoadSection.

(** ** Invariants of the loop over the stubs *)

Section CrawlInvariants.
Variable env : Env.














End CrawlInvariants.







(** ** The scenario of the two links *)

Section Scenario.
Variable env : Env.



End Scenario.




(** ** The map holds each section once, under its id *)

Section MapInvariant.
Context {V : Type}.
Implicit Types (m : list (string * V)) (k : string) (v : V).

Lemma assoc_get_some_in k v m : assoc_get k m = Some v -> In (k, v) m.
Proof.
  induction m as [|[k0 v0] m IH]; simpl; [discriminate|].
  destruct (String.eqb_spec k k0) as [->|N].
  - intros H; inversion H. now left.
  - intros H. right. now apply IH.
Qed.

Lemma in_assoc_keys k v m : In (k, v) m -> In k (assoc_keys m).
Proof. intros H. apply (in_map fst) in H. exact H. Qed.

Lemma nodup_in_get k v m :
  NoDup (assoc_keys m) -> In (k, v) m -> assoc_get k m = Some v.
Proof.
  induction m as [|[k0 v0] m IH]; simpl; [intros _ []|].
  intros N [E|I].
  - inversion E; subst. now rewrite String.eqb_refl.
  - inversion N as [|? ? N1 N2]; subst.
    destruct (String.eqb_spec k k0) as [->|_].
    + exfalso. apply N1. now apply in_assoc_keys with v.
    + now apply IH.
Qed.

Lemma in_assoc_set k v m k' v' :
  In (k', v') (assoc_set k v m) -> (k', v') = (k, v) \/ In (k', v') m.
Proof.
  induction m as [|[k0 v0] m IH]; simpl.
  - intros [E|[]]. now left.
  - destruct (String.eqb k k0); simpl.
    + intros [E|I]; [now left | right; now right].
    + intros [E|I]; [right; now left|].
      destruct (IH I) as [E|I']; [now left | right; now right].
Qed.

Lemma in_keys_assoc_set k v m k' :
  In k' (assoc_keys (assoc_set k v m)) -> k' = k \/ In k' (assoc_keys m).
Proof.
  induction m as [|[k0 v0] m IH]; simpl.
  - intros [E|[]]. now left.
  - destruct (String.eqb k k0); simpl.
    + intros [E|I]; [now left | right; now right].
    + intros [E|I]; [right; now left|].
      destruct (IH I) as [E|I']; [now left | right; now right].
Qed.

Lemma nodup_assoc_set k v m :
  NoDup (assoc_keys m) -> NoDup (assoc_keys (assoc_set k v m)).
Proof.
  induction m as [|[k0 v0] m IH]; simpl.
  - intros _. constructor; [intros [] | constructor].
  - intros N. inversion N as [|? ? N1 N2]; subst.
    destruct (String.eqb_spec k k0) as [->|D]; simpl.
    + now constructor.
    + constructor; [|now apply IH].
      intros I. apply in_keys_assoc_set in I as [E|I]; [congruence | tauto].
Qed.

End MapInvariant.

Section KeyedCrawl.
Variable env : Env.

Lemma wellKeyed_set (m : list (string * DocSection)) (s : DocSection) :
  wellKeyed m -> wellKeyed (assoc_set (id s) s m).
Proof.
  intros [N K]. split; [now apply nodup_assoc_set|].
  intros k x I. apply in_assoc_set in I as [E|I]; [|now apply K].
  now inversion E.
Qed.

Lemma loadSection_wellKeyed (w : World) (s : DocSection) :
  wellKeyed (sections w) -> wellKeyed (sections (loadSection env w s)).
Proof.
  intros K.
  destruct (loadSection_cases env w s)
    as [(c & _ & ->)|[(_ & _ & ->)|(_ & doc & _ & ->)]].
  - simpl. apply (wellKeyed_set _ (withContent s (content c))).
    now apply wellKeyed_set.
  - exact K.
  - cbv zeta. simpl sections.
    rewrite (proj1 (saveCachedContent_state _ _ _)).
    apply (wellKeyed_set _ (withContent s (pageContent doc))). exact K.
Qed.

Lemma crawl_wellKeyed (stubs : list DocSection) (w : World) :
  wellKeyed (sections w) ->
  wellKeyed (sections (fold_left (loadSection env) stubs w)).
Proof.
  revert w; induction stubs as [|s stubs IH]; intros w K; [exact K|].
  simpl. apply IH. now apply loadSection_wellKeyed.
Qed.

Lemma initialize_wellKeyed (t0 t1 : Z) (w : World) :
  wellKeyed (sections w) ->
  wellKeyed (sections (worldOf (initialize env t0 t1 w))).
Proof.
  intros K.
  destruct (initialize_cases env t0 t1 w)
    as [[_ ->]|[(_ & _ & ->)|(_ & doc & stubs & _ & _ & ->)]];
    [exact K | exact K |].
  simpl. now apply crawl_wellKeyed.
Qed.

Lemma wellKeyed_lookup (m : list (string * DocSection)) (s : DocSection) :
  wellKeyed m -> In s (assoc_values m) -> assoc_get (id s) m = Some s.
Proof.
  intros [N K] I. apply in_map_iff in I as ([k x] & E & I). simpl in E; subst x.
  rewrite (K k s I). now apply nodup_in_get.
Qed.

Lemma wellKeyed_ids (m : list (string * DocSection)) :
  wellKeyed m -> map id (assoc_values m) = assoc_keys m.
Proof.
  intros [_ K]. unfold assoc_values, assoc_keys. rewrite map_map.
  apply map_ext_in. intros [k s] I. simpl. now apply K.
Qed.

End KeyedCrawl.

(** X1. On a map that holds each section once and under its own id, as the
    map of a new cache does, [getSection(i)] returns nothing or a section
    whose id is [i], and the map is still so afterwards, whether the call
    returned or threw. *)
Theorem getSection_id (env : Env) (t0 t1 : Z) (i : string) (w : World) :
  wellKeyed (sections w) ->
  wellKeyed (sections (worldOf (getSection env t0 t1 i w)))
  /\ forall w' s, getSection env t0 t1 i w = Returned w' (Some s) -> id s = i.
Proof.
  intros K. pose proof (initialize_wellKeyed env t0 t1 w K) as K'.
  unfold getSection.
  destruct (initialize env t0 t1 w) as [w1 []|w1 e]; simpl in *.
  - split; [exact K'|]. intros w' s H. inversion H; subst.
    match goal with E : assoc_get _ _ = Some _ |- _ =>
      apply assoc_get_some_in in E; now apply (proj2 K') in E end.
  - split; [exact K'|]. discriminate.
Qed.

Lemma getSection_id_witness :
  wellKeyed (sections (worldOf (getSection sampleEnv 1000 1000 "rules"
                                           (newCache []))))
  /\ forall w' s,
       getSection sampleEnv 1000 1000 "rules" (newCache [])
       = Returned w' (Some s) -> id s = "rules".
Proof.
  apply (getSection_id sampleEnv 1000 1000 "rules" (newCache [])).
  split; [constructor | intros k s []].
Defined.

(** X2. On such a map, the sections [getAllSections()] returns have distinct
    ids, and each of them is what the map holds for its id: the listing and
    the lookup agree. *)
Theorem getAllSections_distinct (env : Env) (t0 t1 : Z) (w w' : World)
        (secs : list DocSection) :
  wellKeyed (sections w) ->
  getAllSections env t0 t1 w = Returned w' secs ->
  NoDup (map id secs)
  /\ (forall s, In s secs -> assoc_get (id s) (sections w') = Some s)
  /\ (forall i s, assoc_get i (sections w') = Some s -> In s secs).
Proof.
  intros K H. pose proof (initialize_wellKeyed env t0 t1 w K) as K'.
  unfold getAllSections in H.
  destruct (initialize env t0 t1 w) as [w1 []|w1 e]; [|discriminate].
  inversion H; subst. simpl in K'. split; [|split].
  - rewrite wellKeyed_ids by exact K'. exact (proj1 K').
  - intros s I. now apply wellKeyed_lookup.
  - intros i s G. apply assoc_get_some_in in G.
    apply (in_map snd) in G. exact G.
Qed.

Lemma getAllSections_distinct_witness :
  NoDup (map id [rulesSection; pluginsSection])
  /\ (forall s, In s [rulesSection; pluginsSection] ->
                assoc_get (id s) (sections sampleWorld) = Some s)
  /\ (forall i s, assoc_get i (sections sampleWorld) = Some s ->
                  In s [rulesSection; pluginsSection]).
Proof.
  apply (getAllSections_distinct sampleEnv 1000 1000 (newCache [])
           sampleWorld [rulesSection; pluginsSection]).
  - split; [constructor | intros k s []].
  - vm_compute. reflexivity.
Defined.

(** X3. After [refreshCache()], returned or thrown, and whatever the map held
    before, the map holds each section once and under its own id. *)
Theorem refreshCache_wellKeyed (env : Env) (t0 t1 : Z) (w : World) :
  wellKeyed (sections (worldOf (refreshCache env t0 t1 w))).
Proof.
  unfold refreshCache. apply initialize_wellKeyed.
  unfold clearFiles. destruct (listable env); simpl;
    (split; [constructor | intros k s []]).
Qed.

(** ** What a crawl keeps *)

Section CrawlKeeps.
Variable env : Env.

Lemma loadSection_keeps (w : World) (s : DocSection) (k : string) :
  assoc_get k (sections w) <> None ->
  assoc_get k (sections (loadSection env w s)) <> None.
Proof.
  intros H.
  destruct (loadSection_cases env w s)
    as [(c & _ & ->)|[(_ & _ & ->)|(_ & doc & _ & ->)]].
  - simpl. rewrite !assoc_get_set.
    destruct (String.eqb k _); [discriminate|].
    destruct (String.eqb k _); [discriminate | exact H].
  - exact H.
  - cbv zeta. simpl sections. rewrite assoc_get_set.
    rewrite (proj1 (saveCachedContent_state _ _ _)).
    destruct (String.eqb k _); [discriminate | exact H].
Qed.

Lemma loadSection_keeps_file (w : World) (s : DocSection) (f : string) :
  assoc_get f (files w) <> None ->
  assoc_get f (files (loadSection env w s)) <> None.
Proof.
  intros H. destruct (loadSection_files env w s f) as [E|(_ & _ & doc & _ & E)];
    rewrite E; [exact H | discriminate].
Qed.

Lemma loadSection_other_file (w : World) (s : DocSection) (f : string) :
  isRecord f = false ->
  assoc_get f (files (loadSection env w s)) = assoc_get f (files w).
Proof.
  intros R. destruct (loadSection_files env w s f) as [E|(E & _)];
    [exact E|].
  rewrite E, cachePath_isRecord in R. discriminate R.
Qed.

Lemma crawl_keeps (stubs : list DocSection) (w : World) :
  (forall k, assoc_get k (sections w) <> None ->
             assoc_get k (sections (fold_left (loadSection env) stubs w))
             <> None)
  /\ (forall f, assoc_get f (files w) <> None ->
                assoc_get f (files (fold_left (loadSection env) stubs w))
                <> None)
  /\ (forall f, isRecord f = false ->
                assoc_get f (files (fold_left (loadSection env) stubs w))
                = assoc_get f (files w)).
Proof.
  revert w; induction stubs as [|s stubs IH]; intros w; simpl.
  - repeat split; auto.
  - destruct (IH (loadSection env w s)) as (A & B & C).
    split; [|split].
    + intros k H. apply A. now apply loadSection_keeps.
    + intros f H. apply B. now apply loadSection_keeps_file.
    + intros f R. rewrite C by exact R. now apply loadSection_other_file.
Qed.





Lemma initialize_world (t0 t1 : Z) (w : World) :
  exists stubs,
    sections (worldOf (initialize env t0 t1 w))
    = sections (fold_left (loadSection env) stubs (addRequest IndexRequest w))
    /\ files (worldOf (initialize env t0 t1 w))
       = files (fold_left (loadSection env) stubs (addRequest IndexRequest w)).
Proof.
  destruct (initialize_cases env t0 t1 w)
    as [[_ ->]|[(_ & _ & ->)|(_ & doc & stubs & _ & _ & ->)]].
  - exists []. split; reflexivity.
  - exists []. split; reflexivity.
  - exists stubs. split; reflexivity.
Qed.

End CrawlKeeps.

(** X4. [initialize()], returned or thrown, never takes a section out of the
    map and never deletes a file of the cache directory: a page that left the
    site stays in the map until [refreshCache()]. *)
Theorem initialize_keeps (env : Env) (t0 t1 : Z) (w : World) :
  (forall k, assoc_get k (sections w) <> None ->
             assoc_get k (sections (worldOf (initialize env t0 t1 w)))
             <> None)
  /\ (forall f, assoc_get f (files w) <> None ->
                assoc_get f (files (worldOf (initialize env t0 t1 w)))
                <> None).
Proof.
  destruct (initialize_world env t0 t1 w) as (stubs & -> & ->).
  destruct (crawl_keeps env stubs (addRequest IndexRequest w)) as (A & B & _).
  split; [exact A | exact B].
Qed.

Lemma initialize_keeps_witness :
  assoc_get "webui.json"
    (files (worldOf (initialize sampleEnv 4000000 4000000 staleWorld)))
  <> None
  /\ indexFetches (worldOf (initialize sampleEnv 4000000 4000000 staleWorld))
     = 2%nat.
Proof.
  split; [|reflexivity].
  apply (proj2 (initialize_keeps sampleEnv 4000000 4000000 staleWorld)).
  discriminate.
Defined.



(** ** Crawls over a filled store, twin links, and refreshes *)

Section StoreCrawl.
Variable env : Env.

Lemma loadSection_hit (w : World) (s c : DocSection) :
  assoc_get (cachePath (id s)) (files w) = Some (Json c) ->
  loadSection env w s
  = setSections (assoc_set (id s) (withContent s (content c))
                           (assoc_set (id c) c (sections w))) w.
Proof.
  intros H. unfold loadSection, getCachedContent. now rewrite H.
Qed.

Lemma loadSection_served (w : World) (s c : DocSection) (k : string) :
  consistent (files w) ->
  assoc_get (cachePath (id s)) (files w) = Some (Json c) ->
  servedFromStore k w \/ id s = k ->
  servedFromStore k (loadSection env w s).
Proof.
  intros C H G. rewrite (loadSection_hit w s c H).
  pose proof (C _ _ H) as Ic.
  destruct (String.eqb_spec k (id s)) as [->|N].
  - exists (withContent s (content c)), c. simpl. rewrite assoc_get_set.
    change (id (withContent s (content c))) with (id s).
    now rewrite String.eqb_refl.
  - destruct G as [(x & d & G1 & G2 & G3)|E]; [|congruence].
    exists x, d. simpl. rewrite !assoc_get_set.
    change (id (withContent s (content c))) with (id s).
    rewrite Ic. apply String.eqb_neq in N. now rewrite N.
Qed.

Lemma crawl_served (stubs : list DocSection) (w : World) :
  consistent (files w) ->
  (forall s, In s stubs ->
             exists c, assoc_get (cachePath (id s)) (files w) = Some (Json c)) ->
  files (fold_left (loadSection env) stubs w) = files w
  /\ requests (fold_left (loadSection env) stubs w) = requests w
  /\ forall k, servedFromStore k w \/ In k (stubIds stubs) ->
               servedFromStore k (fold_left (loadSection env) stubs w).
Proof.
  revert w; induction stubs as [|s stubs IH]; intros w C H; simpl.
  - split; [reflexivity|]. split; [reflexivity|]. intros k [G|[]]. exact G.
  - destruct (H s (or_introl eq_refl)) as (c & Hc).
    assert (F : files (loadSection env w s) = files w
                /\ requests (loadSection env w s) = requests w)
      by (rewrite (loadSection_hit w s c Hc); split; reflexivity).
    destruct F as [Ff Fr].
    destruct (IH (loadSection env w s)) as (A & B & G).
    + now rewrite Ff.
    + intros s' I. rewrite Ff. apply H. now right.
    + rewrite A, B, Ff, Fr. split; [reflexivity|]. split; [reflexivity|].
      intros k [S|[E|I]]; apply G.
      * left. apply (loadSection_served w s c k C Hc). now left.
      * left. apply (loadSection_served w s c k C Hc). now right.
      * now right.
Qed.



Lemma sectionId_of_nonempty (h : string) : sectionId_of h <> "".
Proof.
  unfold sectionId_of.
  destruct (JS.stripSuffix ".html" (JS.stripPrefix "/whistle/" h));
    simpl; discriminate.
Qed.

Lemma orElse_nonempty (t i : string) : i <> "" -> orElse t i <> "".
Proof. intros H. unfold orElse. destruct t; simpl; [exact H | discriminate]. Qed.

Lemma isStubOf_isStub (el : Element) (s : DocSection) :
  isStubOf env el s -> isStub s.
Proof.
  intros (h & u & _ & _ & ->). split; [|split]; simpl.
  - apply sectionId_of_nonempty.
  - apply orElse_nonempty, sectionId_of_nonempty.
  - reflexivity.
Qed.

Lemma stubs_of_links (kept : list Element) (st : list DocSection) :
  Forall2 (isStubOf env) kept st -> Forall isStub st.
Proof.
  induction 1 as [|el s kept st R _ IH]; constructor; [|exact IH].
  now apply isStubOf_isStub with el.
Qed.

End StoreCrawl.

(** X7. The records of the store never expire.  When a crawl is due and
    every stub of the index page has a record in a store whose records hold
    the sections their names say, [initialize()] returns after requesting the
    index page only: no section page is requested, no file is written, and
    the map holds for every stub a section with the content of its record. *)
Theorem crawl_from_store (env : Env) (t0 t1 : Z) (w : World) (doc : Document)
        (stubs : list DocSection) :
  mustCrawl t0 w ->
  indexResponse env w = Some doc ->
  indexSections env doc = Some stubs ->
  consistent (files w) ->
  (forall s, In s stubs ->
             exists c, assoc_get (cachePath (id s)) (files w) = Some (Json c)) ->
  exists w',
    initialize env t0 t1 w = Returned w' tt
    /\ requests w' = (requests w ++ [IndexRequest])%list
    /\ files w' = files w
    /\ forall s, In s stubs -> servedFromStore (id s) w'.
Proof.
  intros M I S C H. unfold initialize, fetchUrl.
  unfold mustCrawl in M. rewrite M. unfold indexResponse in I. rewrite I, S.
  eexists. split; [reflexivity|].
  destruct (crawl_served env stubs (addRequest IndexRequest w) C H)
    as (A & B & G).
  split; [exact B|]. split; [exact A|].
  intros s Is.
  destruct (G (id s)) as (x & c & G1 & G2 & G3);
    [right; unfold stubIds; now apply in_map|].
  exists x, c. split; [exact G1|]. split; [exact G2 | exact G3].
Qed.

Lemma crawl_from_store_witness :
  exists w',
    initialize lockedEnv 4000000 4000000 staleWorld = Returned w' tt
    /\ requests w' = (requests staleWorld ++ [IndexRequest])%list
    /\ files w' = files staleWorld
    /\ forall s, In s [mkDocSection "rules" "Rules" ""
                                    "https://wproxy.org/whistle/rules.html";
                       mkDocSection "plugins" "Plugins" ""
                                    "https://wproxy.org/whistle/plugins.html"] ->
                 servedFromStore (id s) w'.
Proof.
  apply (crawl_from_store lockedEnv 4000000 4000000 staleWorld indexPage).
  - reflexivity.
  - reflexivity.
  - reflexivity.
  - intros i c H. simpl in H.
    destruct (String.eqb_spec (cachePath i) "rules.json") as [E|_].
    { inversion H; subst c. symmetry. now apply (cachePath_inj i "rules"). }
    destruct (String.eqb_spec (cachePath i) "plugins.json") as [E|_].
    { inversion H; subst c. symmetry. now apply (cachePath_inj i "plugins"). }
    destruct (String.eqb_spec (cachePath i) "webui.json") as [E|_].
    { inversion H; subst c. symmetry. now apply (cachePath_inj i "webui"). }
    discriminate H.
  - intros s [<-|[<-|[]]]; eexists; reflexivity.
Defined.

(** X8. Two stubs with the same id.  When the first is not cached, its page
    is fetched and its record can be written, loading the second right after
    it requests nothing: the second takes the content fetched for the first
    from the record just written, and the map holds that content under the
    title and the url of the second. *)
Theorem twin_ids_share_content (env : Env) (w : World) (s1 s2 : DocSection)
        (doc : Document) :
  id s1 = id s2 ->
  cacheMiss (id s1) w ->
  curl env (List.length (requests w)) (url s1) = Some doc ->
  writable env (cachePath (id s1)) = true ->
  let w' := loadSection env (loadSection env w s1) s2 in
  assoc_get (id s2) (sections w') = Some (withContent s2 (pageContent doc))
  /\ requests w' = (requests w ++ [SectionRequest (url s1)])%list
  /\ assoc_get (cachePath (id s2)) (files w')
     = Some (Json (withContent s1 (pageContent doc))).
Proof.
  intros E M F W w'.
  destruct (loadSection_cases env w s1)
    as [(c & H & _)|[(_ & N & _)|(_ & doc' & F' & L)]].
  - exfalso. exact (M c H).
  - congruence.
  - rewrite F in F'. inversion F'; subst doc'. cbv zeta in L.
    assert (R : assoc_get (cachePath (id s2)) (files (loadSection env w s1))
                = Some (Json (withContent s1 (pageContent doc)))).
    { rewrite L. simpl files. rewrite saveCachedContent_get.
      change (id (withContent s1 (pageContent doc))) with (id s1).
      now rewrite W, <- E, String.eqb_refl. }
    unfold w'. rewrite (loadSection_hit env _ s2 _ R). simpl.
    split; [|split].
    + rewrite assoc_get_set.
      change (id (withContent s2 (pageContent doc))) with (id s2).
      now rewrite String.eqb_refl.
    + rewrite L. simpl. now rewrite (proj2 (saveCachedContent_state _ _ _)).
    + exact R.
Qed.

Lemma twin_ids_share_content_witness :
  assoc_get "rules"
    (sections (worldOf (initialize twinEnv 0 0 (newCache []))))
  = Some (mkDocSection "rules" "Rules again" "Map requests to operations"
                       "https://wproxy.org/whistle/rules")
  /\ requests (worldOf (initialize twinEnv 0 0 (newCache [])))
     = [IndexRequest; SectionRequest "https://wproxy.org/whistle/rules.html"].
Proof.
  destruct (twin_ids_share_content twinEnv
              (addRequest IndexRequest (newCache []))
              (mkDocSection "rules" "Rules" ""
                            "https://wproxy.org/whistle/rules.html")
              (mkDocSection "rules" "Rules again" ""
                            "https://wproxy.org/whistle/rules")
              rulesPage) as (A & B & _).
  - reflexivity.
  - intros c H. discriminate H.
  - reflexivity.
  - reflexivity.
  - split; [exact A | exact B].
Defined.



(** X10. Every stub the index parser returns has an id and a title that are
    not empty, and an empty content. *)
Theorem stubs_wellformed (env : Env) (doc : Document)
        (stubs : list DocSection) :
  indexSections env doc = Some stubs -> Forall isStub stubs.
Proof.
  intros H. unfold indexSections in H.
  assert (D : isStub defaultSection)
    by (repeat split; simpl; discriminate).
  destruct (firstLinks doc selectors) as [links|];
    [|inversion H; subst; now constructor].
  destruct (eachLink env links []) as [st|] eqn:E; [|discriminate].
  apply eachLink_stubs, stubs_of_links in E.
  destruct st; inversion H; subst; [now constructor | exact E].
Qed.

Lemma stubs_wellformed_witness :
  Forall isStub [mkDocSection "rules" "Rules" ""
                              "https://wproxy.org/whistle/rules.html";
                 mkDocSection "plugins" "Plugins" ""
                              "https://wproxy.org/whistle/plugins.html"].
Proof.
  apply (stubs_wellformed sampleEnv indexPage). reflexivity.
Defined.

(** ** More on the search *)

Section SearchMore.
Import JS JSFacts.

Lemma length_append (a b : string) : length (a ++ b) = length a + length b.
Proof. unfold length. rewrite length_app. lia. Qed.

Lemma ellipsisIf_length (b : bool) : 0 <= length (ellipsisIf b) <= 3.
Proof. destruct b; unfold length; simpl; lia. Qed.

Lemma excerpt_length (query : string) (section : DocSection) :
  length (excerpt query section) <= length query + 206.
Proof.
  assert (Q : 0 <= length query) by (unfold length; lia).
  destruct (Z.eq_dec (indexOf (toLowerCase (content section))
                              (toLowerCase query)) (-1)) as [E|N].
  - rewrite (excerpt_absent _ _ E), length_append, substring_0_200.
    assert (T : length (take 200 (content section)) <= 200)
      by (unfold length; rewrite length_take; lia).
    change (length "...") with 3. lia.
  - rewrite (excerpt_found _ _ N). cbv zeta.
    destruct (indexOf_first _ _ N) as (I0 & I1 & _).
    unfold length in I1. rewrite !toLowerCase_length in I1.
    fold (length query) in I1. fold (length (content section)) in I1.
    rewrite !length_append, substring_length by lia.
    pose proof (ellipsisIf_length
                  (0 <? Z.max 0 (indexOf (toLowerCase (content section))
                                         (toLowerCase query) - 100))).
    pose proof (ellipsisIf_length
                  (Z.min (length (content section))
                         (indexOf (toLowerCase (content section))
                                  (toLowerCase query) + length query + 100)
                   <? length (content section))).
    lia.
Qed.

Lemma excerpt_case (q1 q2 : string) (section : DocSection) :
  toLowerCase q1 = toLowerCase q2 -> length q1 = length q2 ->
  excerpt q1 section = excerpt q2 section
  /\ matches q1 section = matches q2 section.
Proof. intros E L. unfold excerpt, matches. now rewrite E, L. Qed.

Lemma scan_case (q1 q2 : string) (secs : list DocSection) :
  toLowerCase q1 = toLowerCase q2 -> length q1 = length q2 ->
  scan q1 secs = scan q2 secs.
Proof.
  intros E L. induction secs as [|s secs IH]; simpl; [reflexivity|].
  destruct (excerpt_case q1 q2 s E L) as [-> ->]. now rewrite IH.
Qed.

Lemma initialize_noop (env : Env) (t0 t1 : Z) (w : World) :
  isInitialized w = true -> t0 - lastFetchTime w < CACHE_TTL ->
  initialize env t0 t1 w = Returned w tt.
Proof.
  intros I F. unfold initialize. rewrite I. apply Z.ltb_lt in F.
  now rewrite F.
Qed.

End SearchMore.

(** X11. When [initialize()] returns, [search(query)] returns exactly the
    sections of the map whose title or content holds the query
    case-insensitively, each once and in the order of the map: no match is
    left out. *)
Theorem search_exact (env : Env) (t0 t1 : Z) (query : string) (w w' : World) :
  initialize env t0 t1 w = Returned w' tt ->
  exists results,
    search env t0 t1 query w = Returned w' results
    /\ results = map (fun s => resultOf s (excerpt query s))
                     (filter (matches query) (assoc_values (sections w')))
    /\ (forall s, In s (assoc_values (sections w')) ->
                  occursIn query (title s) \/ occursIn query (content s) ->
                  In (resultOf s (excerpt query s)) results)
    /\ (List.length results <= List.length (sections w'))%nat.
Proof.
  intros H. exists (scan query (assoc_values (sections w'))).
  split; [now apply search_after_initialize|].
  split; [apply scan_filter|]. split.
  - intros s I M. apply in_scan. exists s. repeat split; [exact I|].
    now apply matches_iff.
  - rewrite scan_filter, length_map.
    etransitivity; [apply filter_length_le|].
    unfold assoc_values. now rewrite length_map.
Qed.

Lemma search_exact_witness :
  exists results,
    search sampleEnv 2000 2000 "RULE" sampleWorld
    = Returned sampleWorld results
    /\ results = map (fun s => resultOf s (excerpt "RULE" s))
                     (filter (matches "RULE")
                             (assoc_values (sections sampleWorld)))
    /\ (forall s, In s (assoc_values (sections sampleWorld)) ->
                  occursIn "RULE" (title s) \/ occursIn "RULE" (content s) ->
                  In (resultOf s (excerpt "RULE" s)) results)
    /\ (List.length results <= List.length (sections sampleWorld))%nat.
Proof.
  apply (search_exact sampleEnv 2000 2000 "RULE" sampleWorld sampleWorld).
  vm_compute. reflexivity.
Defined.

(** X12. [search] sees the query only through its lower-case form and its
    length: two queries with the same lower-case form and the same length
    give the same outcome, the excerpts included. *)
Theorem search_ignores_case (env : Env) (t0 t1 : Z) (q1 q2 : string)
        (w : World) :
  JS.toLowerCase q1 = JS.toLowerCase q2 ->
  JS.length q1 = JS.length q2 ->
  search env t0 t1 q1 w = search env t0 t1 q2 w.
Proof.
  intros E L. unfold search.
  destruct (initialize env t0 t1 w) as [w' []|w' e]; [|reflexivity].
  now rewrite (scan_case q1 q2 _ E L).
Qed.

Lemma search_ignores_case_witness :
  search sampleEnv 2000 2000 "PlugIn" sampleWorld
  = search sampleEnv 2000 2000 "pLUGiN" sampleWorld.
Proof.
  apply (search_ignores_case sampleEnv 2000 2000 "PlugIn" "pLUGiN" sampleWorld);
    reflexivity.
Defined.

(** X13. The excerpt of every result of the scan is at most 206 characters
    longer than the query: 100 characters on each side of the match and the
    two markers. *)
Theorem excerpts_bounded (query : string) (secs : list DocSection) :
  Forall (fun r => JS.length (matchedContent r) <= JS.length query + 206)
         (scan query secs).
Proof.
  rewrite scan_filter. apply Forall_forall. intros r I.
  apply in_map_iff in I as (s & <- & _). simpl. apply excerpt_length.
Qed.

(** ** The tools *)

Section Tools.
Variable env : Env.

Lemma truthy_iff (s : string) : JS.truthy s = true <-> s <> "".
Proof. destruct s; simpl; split; congruence. Qed.

Lemma toLowerCase_empty (s : string) : JS.toLowerCase s = "" <-> s = "".
Proof. destruct s; simpl; split; congruence. Qed.

Lemma searchTool_error (c : Z * Z) (args : option (list (string * string)))
      (w w' : World) (code : ErrorCode) (message : string) :
  searchTool env c args w = (w', McpError code message) ->
  (code = InvalidParams /\ w' = w /\ argument args "query" = "")
  \/ (code = InternalError /\ message = "Failed to execute tool"
      /\ valueOf (initialize env (fst c) (snd c) w) = None).
Proof.
  unfold searchTool.
  destruct (JS.truthy (argument args "query")) eqn:T; simpl.
  - unfold search.
    destruct (initialize env (fst c) (snd c) w) as [w1 []|w1 e]; simpl.
    + destruct (scan _ _); intros H; inversion H.
    + intros H; inversion H; subst. right. now repeat split.
  - intros H; inversion H; subst. left. repeat split.
    destruct (argument args "query"); [reflexivity | discriminate T].
Qed.

Lemma refreshTool_error (c : Z * Z) (w w' : World) (code : ErrorCode)
      (message : string) :
  refreshTool env c w = (w', McpError code message) ->
  code = InternalError /\ message = "Failed to execute tool".
Proof.
  unfold refreshTool.
  destruct (refreshCache env (fst c) (snd c) w); intros H; inversion H.
  now split.
Qed.

Lemma featureTool_error (c1 c2 c3 : Z * Z)
      (args : option (list (string * string))) (w w' : World)
      (code : ErrorCode) (message : string) :
  featureTool env c1 c2 c3 args w = (w', McpError code message) ->
  (code = InvalidParams /\ w' = w /\ argument args "feature" = "")
  \/ (code = InternalError /\ message = "Failed to execute tool").
Proof.
  unfold featureTool.
  destruct (JS.truthy (JS.toLowerCase (argument args "feature"))) eqn:T; simpl.
  - intros H. right.
    destruct (getSection env _ _ _ w) as [w1 [s|]|w1 e];
      [inversion H | | inversion H; now split].
    destruct (search env _ _ _ w1) as [w2 [|r rs]|w2 e];
      [inversion H | | inversion H; now split].
    destruct (getSection env _ _ _ w2) as [w3 [s|]|w3 e];
      inversion H; now split.
  - intros H; inversion H; subst. left. repeat split.
    apply toLowerCase_empty.
    destruct (JS.toLowerCase (argument args "feature"));
      [reflexivity | discriminate T].
Qed.

Lemma argument_given (args : option (list (string * string)))
      (key : string) :
  argument args key = "" ->
  exists a, args = Some a /\ assoc_get key a <> None.
Proof.
  unfold argument. destruct args as [a|]; [|discriminate].
  destruct (assoc_get key a) as [v|] eqn:E; [|discriminate].
  intros _. exists a. split; [reflexivity | rewrite E; discriminate].
Qed.

End Tools.

(** X14. [get_whistle_feature] over a map that holds each section once and
    under its id.  When its first [initialize()] returns and the two later
    ones fall within the TTL, the reply is the text of the section whose id
    is the lower-cased feature name when there is one; otherwise the text of
    the first section, in the order of the map, whose title or content holds
    the feature name; and the not-found text only when no section matches. *)
Theorem featureTool_lookup (env : Env) (c1 c2 c3 : Z * Z)
        (args : option (list (string * string))) (w w1 : World) :
  wellKeyed (sections w) ->
  argument args "feature" <> "" ->
  initialize env (fst c1) (snd c1) w = Returned w1 tt ->
  fst c2 - lastFetchTime w1 < CACHE_TTL ->
  fst c3 - lastFetchTime w1 < CACHE_TTL ->
  let feature := JS.toLowerCase (argument args "feature") in
  featureTool env c1 c2 c3 args w
  = (w1, Content
           match assoc_get feature (sections w1) with
           | Some section => sectionText section
           | None =>
               match firstMatch feature (assoc_values (sections w1)) with
               | Some section => sectionText section
               | None => noFeatureText feature
               end
           end).
Proof.
  intros K N H F2 F3 feature.
  assert (T : JS.truthy feature = true).
  { apply truthy_iff. unfold feature. intros E.
    apply N. now apply toLowerCase_empty. }
  pose proof (initialize_wellKeyed env (fst c1) (snd c1) w K) as K1.
  rewrite H in K1. simpl in K1.
  destruct (initialize_returned env _ _ _ _ H) as [I1 _].
  unfold featureTool. fold feature. rewrite T. simpl negb. cbv iota.
  unfold getSection at 1. rewrite H.
  destruct (assoc_get feature (sections w1)) as [s|]; [reflexivity|].
  rewrite (search_after_initialize env _ _ feature w1 w1
             (initialize_noop env _ _ w1 I1 F2)).
  rewrite scan_filter. unfold firstMatch.
  destruct (filter (matches feature) (assoc_values (sections w1)))
    as [|s rest] eqn:E; [reflexivity|].
  simpl map. cbv iota. unfold getSection.
  rewrite (initialize_noop env _ _ w1 I1 F3). simpl sectionId.
  rewrite (wellKeyed_lookup (sections w1) s K1); [reflexivity|].
  assert (In s (filter (matches feature) (assoc_values (sections w1))))
    by (rewrite E; now left).
  now apply filter_In in H0.
Qed.

Lemma featureTool_lookup_witness :
  featureTool sampleEnv (1000, 1000) (2000, 2000) (3000, 3000)
              (Some [("feature", "Extension")]) (newCache [])
  = (sampleWorld, Content (sectionText pluginsSection)).
Proof.
  apply (featureTool_lookup sampleEnv (1000, 1000) (2000, 2000) (3000, 3000)
           (Some [("feature", "Extension")]) (newCache []) sampleWorld).
  - split; [constructor | intros k s []].
  - discriminate.
  - vm_compute. reflexivity.
  - vm_compute. reflexivity.
  - vm_compute. reflexivity.
Defined.

(** X15. The errors a client of the tools can get.  [InvalidParams] comes
    only from the search and feature tools, only when the argument is given
    and [String()] of it is the empty string, and before the cache is
    touched; a missing argument reads as the text ["undefined"] and is not
    refused.  [MethodNotFound] comes only for a name that is none of the
    three tools, and leaves the cache untouched.  Every other error is
    [InternalError] with the message ["Failed to execute tool"]: what the
    cache threw is not passed on. *)
Theorem callTool_errors (env : Env) (c1 c2 c3 : Z * Z) (name : string)
        (args : option (list (string * string))) (w w' : World)
        (code : ErrorCode) (message : string) :
  callTool env c1 c2 c3 name args w = (w', McpError code message) ->
  (code = InvalidParams /\ w' = w
   /\ exists a, args = Some a
                /\ ((name = "search_whistle_docs"
                     /\ assoc_get "query" a <> None
                     /\ argument args "query" = "")
                    \/ (name = "get_whistle_feature"
                        /\ assoc_get "feature" a <> None
                        /\ argument args "feature" = "")))
  \/ (code = InternalError /\ message = "Failed to execute tool"
      /\ (name = "search_whistle_docs" \/ name = "get_whistle_feature"
          \/ name = "refresh_whistle_docs"))
  \/ (code = MethodNotFound /\ w' = w
      /\ message = "Unknown tool: " ++ name
      /\ name <> "search_whistle_docs" /\ name <> "get_whistle_feature"
      /\ name <> "refresh_whistle_docs").
Proof.
  unfold callTool.
  destruct (String.eqb_spec name "search_whistle_docs") as [->|N1].
  { intros H. apply searchTool_error in H as [(A & B & C)|(A & B & _)].
    - left. destruct (argument_given _ _ C) as (a & E & G).
      repeat split; auto. exists a. split; [exact E | left; now repeat split].
    - right. left. repeat split; auto. }
  destruct (String.eqb_spec name "get_whistle_feature") as [->|N2].
  { intros H. apply featureTool_error in H as [(A & B & C)|(A & B)].
    - left. destruct (argument_given _ _ C) as (a & E & G).
      repeat split; auto. exists a. split; [exact E | right; now repeat split].
    - right. left. repeat split; auto. }
  destruct (String.eqb_spec name "refresh_whistle_docs") as [->|N3].
  { intros H. apply refreshTool_error in H as (A & B).
    right. left. repeat split; auto. }
  intros H; inversion H; subst. right. right. now repeat split.
Qed.

Lemma callTool_errors_witness :
  callTool brokenEnv (0, 0) (0, 0) (0, 0) "search_whistle_docs" None
           (newCache [])
  = (addRequest IndexRequest (newCache []),
     McpError InternalError "Failed to execute tool")
  /\ initialize brokenEnv 0 0 (newCache [])
     = Thrown (addRequest IndexRequest (newCache [])) initError.
Proof.
  split; [|reflexivity].
  destruct (callTool_errors brokenEnv (0, 0) (0, 0) (0, 0)
              "search_whistle_docs" None (newCache [])
              (addRequest IndexRequest (newCache []))
              InternalError "Failed to execute tool" eq_refl)
    as [(E & _)|[_|(E & _)]]; [discriminate E | reflexivity | discriminate E].
Defined.

(** ** Records, requests and extracted text *)

Section Records.
Variable env : Env.

Lemma crawl_requests (stubs : list DocSection) (w : World) :
  (List.length (requests (fold_left (loadSection env) stubs w))
   <= List.length (requests w) + List.length stubs)%nat.
Proof.
  revert w; induction stubs as [|s stubs IH]; intros w; simpl; [lia|].
  specialize (IH (loadSection env w s)).
  assert (List.length (requests (loadSection env w s))
          <= List.length (requests w) + 1)%nat; [|lia].
  destruct (loadSection_cases env w s)
    as [(c & _ & ->)|[(_ & _ & ->)|(_ & doc & _ & ->)]]; simpl.
  - lia.
  - rewrite List.length_app. simpl. lia.
  - rewrite (proj2 (saveCachedContent_state _ _ _)). simpl.
    rewrite List.length_app. simpl. lia.
Qed.

Lemma trimStart_head (s : string) :
  JS.trimStart s = ""
  \/ exists c t, JS.trimStart s = String c t /\ JS.isWhiteSpace c = false.
Proof.
  induction s as [|c s IH]; simpl; [now left|].
  destruct (JS.isWhiteSpace c) eqn:E; [exact IH|].
  right. now exists c, s.
Qed.

Lemma trimStart_fixed (c : ascii) (t : string) :
  JS.isWhiteSpace c = false -> JS.trimStart (String c t) = String c t.
Proof. intros E. simpl. now rewrite E. Qed.

Lemma trimEnd_head (c : ascii) (t : string) :
  JS.isWhiteSpace c = false -> exists u, JS.trimEnd (String c t) = String c u.
Proof.
  intros E. simpl. destruct (JS.trimEnd t) as [|d u].
  - rewrite E. now exists "".
  - now exists (String d u).
Qed.

Lemma trimEnd_idempotent (s : string) :
  JS.trimEnd (JS.trimEnd s) = JS.trimEnd s.
Proof.
  induction s as [|c s IH]; [reflexivity|].
  simpl. destruct (JS.trimEnd s) as [|d r] eqn:E.
  - destruct (JS.isWhiteSpace c) eqn:W; [reflexivity|].
    simpl. now rewrite W.
  - change (JS.trimEnd (String c (String d r)))
      with (match JS.trimEnd (String d r) with
            | "" => if JS.isWhiteSpace c then "" else String c ""
            | t => String c t
            end).
    now rewrite IH.
Qed.

Lemma trim_idempotent (s : string) : JS.trim (JS.trim s) = JS.trim s.
Proof.
  unfold JS.trim.
  destruct (trimStart_head s) as [E|(c & t & E & W)]; rewrite E.
  - reflexivity.
  - destruct (trimEnd_head c t W) as (u & U). rewrite U.
    rewrite (trimStart_fixed c u W), <- U. apply trimEnd_idempotent.
Qed.

Lemma firstContent_trimmed (doc : Document) (sels : list string) :
  JS.trim (firstContent doc sels) = firstContent doc sels.
Proof.
  induction sels as [|sel sels IH]; simpl; [reflexivity|].
  destruct (doc sel); [exact IH | apply trim_idempotent].
Qed.

End Records.

(** X17. A record that cannot be parsed is a cache miss and is repaired:
    when the page of the stub can be fetched and the file written, loading
    the stub replaces the record by the section just fetched and puts that
    section in the map. *)
Theorem corrupt_record_repaired (env : Env) (w : World) (s : DocSection)
        (doc : Document) :
  assoc_get (cachePath (id s)) (files w) = Some Garbage ->
  curl env (List.length (requests w)) (url s) = Some doc ->
  writable env (cachePath (id s)) = true ->
  let fetched := withContent s (pageContent doc) in
  assoc_get (cachePath (id s)) (files (loadSection env w s))
  = Some (Json fetched)
  /\ assoc_get (id s) (sections (loadSection env w s)) = Some fetched
  /\ requests (loadSection env w s)
     = (requests w ++ [SectionRequest (url s)])%list.
Proof.
  intros G F W fetched.
  destruct (loadSection_cases env w s)
    as [(c & H & _)|[(_ & N & _)|(_ & doc' & F' & L)]].
  - congruence.
  - congruence.
  - rewrite F in F'. inversion F'; subst doc'. cbv zeta in L. rewrite L.
    fold fetched. split; [|split].
    + simpl files. rewrite saveCachedContent_get.
      change (id fetched) with (id s). now rewrite W, String.eqb_refl.
    + simpl sections. rewrite assoc_get_set.
      change (id fetched) with (id s). now rewrite String.eqb_refl.
    + simpl. now rewrite (proj2 (saveCachedContent_state _ _ _)).
Qed.

Lemma corrupt_record_repaired_witness :
  assoc_get "rules.json"
    (files (loadSection sampleEnv
              (mkWorld [] 0 false [("rules.json", Garbage)] [IndexRequest])
              (mkDocSection "rules" "Rules" ""
                            "https://wproxy.org/whistle/rules.html")))
  = Some (Json rulesSection).
Proof.
  apply (proj1 (corrupt_record_repaired sampleEnv
                  (mkWorld [] 0 false [("rules.json", Garbage)] [IndexRequest])
                  (mkDocSection "rules" "Rules" ""
                                "https://wproxy.org/whistle/rules.html")
                  rulesPage eq_refl eq_refl eq_refl)).
Defined.

(** X18. A call of [initialize()] that returns makes at most one request per
    stub of the index page besides the request of the index page itself, and
    none at all when the cache is initialized and within the TTL. *)
Theorem initialize_request_bound (env : Env) (t0 t1 : Z) (w w' : World) :
  initialize env t0 t1 w = Returned w' tt ->
  (isInitialized w = true -> t0 - lastFetchTime w < CACHE_TTL ->
   requests w' = requests w)
  /\ (forall doc stubs,
        mustCrawl t0 w -> indexResponse env w = Some doc ->
        indexSections env doc = Some stubs ->
        (List.length (requests w')
         <= List.length (requests w) + 1 + List.length stubs)%nat).
Proof.
  intros H. split.
  - intros I F. rewrite (initialize_noop env t0 t1 w I F) in H.
    now inversion H.
  - intros doc stubs M I S. unfold initialize, fetchUrl in H.
    unfold mustCrawl in M. rewrite M in H.
    unfold indexResponse in I. rewrite I, S in H. inversion H; subst w'.
    simpl requests.
    pose proof (crawl_requests env stubs (addRequest IndexRequest w)) as B.
    simpl in B. rewrite List.length_app in B. simpl in B. lia.
Qed.

Lemma initialize_request_bound_witness :
  (List.length (requests sampleWorld)
   <= List.length (requests (newCache [])) + 1 + 2)%nat
  /\ initialize sampleEnv 1000 1000 (newCache []) = Returned sampleWorld tt.
Proof.
  split; [|reflexivity].
  apply (proj2 (initialize_request_bound sampleEnv 1000 1000 (newCache [])
                  sampleWorld eq_refl) indexPage
           [mkDocSection "rules" "Rules" ""
                         "https://wproxy.org/whistle/rules.html";
            mkDocSection "plugins" "Plugins" ""
                         "https://wproxy.org/whistle/plugins.html"]);
    reflexivity.
Defined.

(** X19. The content extracted from a section page has no white space at
    its ends; it is the trimmed text of the first content selector that
    matches, unless that text is empty; and it is empty only when the text
    of [body] trims to nothing. *)
Theorem pageContent_trimmed (doc : Document) :
  JS.trim (pageContent doc) = pageContent doc
  /\ (pageContent doc = "" -> JS.trim (collectionText (doc "body")) = "")
  /\ (forall before selector after,
        contentSelectors = (before ++ selector :: after)%list ->
        (forall s, In s before -> doc s = []) ->
        doc selector <> [] ->
        JS.trim (collectionText (doc selector)) <> "" ->
        pageContent doc = JS.trim (collectionText (doc selector))).
Proof.
  unfold pageContent. split; [|split].
  - destruct (JS.truthy (firstContent doc contentSelectors));
      [apply firstContent_trimmed | apply trim_idempotent].
  - destruct (firstContent doc contentSelectors) eqn:E; simpl;
      [auto | discriminate].
  - intros before selector after S B N T.
    assert (F : firstContent doc contentSelectors
                = JS.trim (collectionText (doc selector))).
    { rewrite S. clear S. induction before as [|b before IH]; simpl.
      - destruct (doc selector); [congruence | reflexivity].
      - rewrite (B b (or_introl eq_refl)). apply IH.
        intros s I. apply B. now right. }
    rewrite F. apply truthy_iff in T. now rewrite T.
Qed.

Lemma pageContent_trimmed_witness :
  pageContent pluginsPage = "Whistle supports custom plugins for extension".
Proof.
  apply (proj2 (proj2 (pageContent_trimmed pluginsPage)) [] "#main"
           [".content"; "article"; ".markdown-body"; "body"]).
  - reflexivity.
  - intros s [].
  - discriminate.
  - discriminate.
Defined.
